(** * StreamSelect: observations and delay buffers

    A shallow embedding of [fall/utils.py] and
    [fall/adaptive_learning/buffer.py].

    Python objects are mutable and shared by reference, so observations
    live in a store ([Heap]) and the deques of the buffers hold
    references ([loc]) into it.  Timestamps, timeouts, weights and
    relevance values are Python floats.  A finite float is a rational
    and is stored and compared as one ([Q]); NaN and the infinities are
    left out.  Sums and differences of floats are rounded by the
    machine, so the methods that compute them take the two operations
    as given ([FloatArith]); [binary64_arith] is IEEE double precision.
    Every method takes the store and the receiver and returns the new
    store and receiver next to its result; a method that can raise
    returns a [result]. *)

From stdpp Require Import gmap strings list fin_maps pretty sorting.
From Stdlib Require Import QArith Lqa SpecFloat.

(** ** Exceptions *)

Inductive exn :=
  | ValueError (msg : string)
  | IndexError (msg : string).

Inductive result (A : Type) :=
  | Ok (a : A)
  | Raise (e : exn).
Arguments Ok {A} a.
Arguments Raise {A} e.

(** ** fall/utils.py *)

#[global] Instance Q_inhabited : Inhabited Q := populate 0%Q.

(** [river.base.typing.ClfTarget] is [Union[bool, str, int]]. *)
Inductive ClfTarget :=
  | TBool (b : bool)
  | TStr (s : string)
  | TInt (n : Z).

Module Observation.

Record t := mk {
  x : gmap string Q;
  y : option ClfTarget;
  seen_at : Q;
  active_state_id : Z;
  sample_weight : Q;
  predictions : gmap Z ClfTarget;
  active_state_relevance : option Q;
  is_stable : bool
}.

(** [Observation.__init__] *)
Definition init (x0 : gmap string Q) (y0 : option ClfTarget)
    (seen_at0 : Q) (active_state_id0 : Z) (sample_weight0 : Q) : t :=
  {| x := x0; y := y0; seen_at := seen_at0;
     active_state_id := active_state_id0; sample_weight := sample_weight0;
     predictions := ∅; active_state_relevance := None; is_stable := false |}.

(** Assignments to single attributes. *)
Definition set_predictions (ps : gmap Z ClfTarget) (o : t) : t :=
  {| x := x o; y := y o; seen_at := seen_at o;
     active_state_id := active_state_id o; sample_weight := sample_weight o;
     predictions := ps; active_state_relevance := active_state_relevance o;
     is_stable := is_stable o |}.

Definition set_active_state_relevance (r : option Q) (o : t) : t :=
  {| x := x o; y := y o; seen_at := seen_at o;
     active_state_id := active_state_id o; sample_weight := sample_weight o;
     predictions := predictions o; active_state_relevance := r;
     is_stable := is_stable o |}.

Definition set_active_state_id (i : Z) (o : t) : t :=
  {| x := x o; y := y o; seen_at := seen_at o;
     active_state_id := i; sample_weight := sample_weight o;
     predictions := predictions o;
     active_state_relevance := active_state_relevance o;
     is_stable := is_stable o |}.

(** [add_prediction]: [self.predictions[state_id] = p]. *)
Definition add_prediction (p : ClfTarget) (state_id : Z) (self : t) : t :=
  set_predictions (<[state_id := p]> (predictions self)) self.

(** [add_active_state_relevance]: the observation after the call and
    the outcome of the call. *)
Definition add_active_state_relevance (v : Q) (id : Z) (self : t)
    : t * result unit :=
  if bool_decide (id ≠ active_state_id self) then
    (self, Raise (ValueError
       ("Attempting to set active state relevance for wrong state "
          +:+ pretty id +:+ ".")))
  else (set_active_state_relevance (Some v) self, Ok tt).

End Observation.

Abbreviation Observation := Observation.t.

#[global] Instance Observation_inhabited : Inhabited Observation :=
  populate (Observation.init ∅ None 0 0 1).

(** A drift detector is seen through its attributes only. *)
Record DriftDetector := mkDriftDetector { attributes : gmap string Q }.

Definition hasattr (d : DriftDetector) (name : string) : bool :=
  bool_decide (is_Some (attributes d !! name)).

(** [get_drift_detector_estimate] *)
Definition get_drift_detector_estimate (detector : DriftDetector) : result Q :=
  if hasattr detector "estimation" then
    Ok (attributes detector !!! "estimation")
  else
    Raise (ValueError
      "Cannot get estimate from detector. Either use a different detector or use the 'any' mode. ").

(** ** fall/adaptive_learning/buffer.py *)

(** References to observation objects, and the store they point into. *)
Abbreviation loc := positive.
Abbreviation Heap := (gmap positive Observation).

(** The timestamp of the object behind a reference. *)
Definition seen_at_of (h : Heap) (l : loc) : Q := Observation.seen_at (h !!! l).

(** [collections.deque(maxlen=n).append]: the item goes to the right end
    and the deque is trimmed from the left when it outgrows [maxlen]. *)
Definition deque_append (maxlen : nat) (d : list loc) (l : loc) : list loc :=
  let d' := d ++ [l] in
  if (maxlen <? length d')%nat then tail d' else d'.

(** [while len(q) and q[0].seen_at <= t: q.popleft()] *)
Fixpoint pop_while (h : Heap) (t : Q) (q : list loc) : list loc :=
  match q with
  | [] => []
  | l :: rest => if Qle_bool (seen_at_of h l) t then pop_while h t rest else q
  end.

(** [for ob in obs: ob.active_state_id = new_id] *)
Definition relabel (new_id : Z) (obs : list loc) (h : Heap) : Heap :=
  foldl (λ h' l, alter (Observation.set_active_state_id new_id) l h') h obs.

Module ObservationBuffer.

Record t := mk {
  window_size : nat;
  buffer : list loc;
  active_window : list loc;
  stable_window : list loc
}.

(** [ObservationBuffer.__init__] *)
Definition init (window_size0 : nat) : t :=
  {| window_size := window_size0; buffer := [];
     active_window := []; stable_window := [] |}.

(** The loop of [release_buffer], on the deque [buffer], the deque
    [stable_window] and the list [released]. *)
Fixpoint release_loop (h : Heap) (stable_timestamp : Q) (maxlen : nat)
    (buf stable released : list loc) : list loc * list loc * list loc :=
  match buf with
  | [] => (buf, stable, released)
  | stable_observation :: rest =>
      if Qle_bool (seen_at_of h stable_observation) stable_timestamp then
        release_loop h stable_timestamp maxlen rest
          (deque_append maxlen stable stable_observation)
          (released ++ [stable_observation])
      else (buf, stable, released)
  end.

Definition release_buffer (stable_timestamp : Q) (h : Heap) (self : t)
    : list loc * Heap * t :=
  let '(buf, stable, released) :=
    release_loop h stable_timestamp (window_size self)
      (buffer self) (stable_window self) [] in
  (released, h,
   {| window_size := window_size self; buffer := buf;
      active_window := active_window self; stable_window := stable |}).

Definition add_observation (observation : loc) (stable_timestamp : Q)
    (h : Heap) (self : t) : list loc * Heap * t :=
  release_buffer stable_timestamp h
    {| window_size := window_size self;
       buffer := buffer self ++ [observation];
       active_window :=
         deque_append (window_size self) (active_window self) observation;
       stable_window := stable_window self |}.

(** [buffer_data] builds a new observation object and adds it. *)
Definition buffer_data (x : gmap string Q) (y : option ClfTarget)
    (current_timestamp stable_timestamp : Q) (active_state_id : Z)
    (sample_weight : Q) (h : Heap) (self : t) : list loc * Heap * t :=
  let observation := fresh (dom h) in
  add_observation observation stable_timestamp
    (<[observation :=
         Observation.init x y current_timestamp active_state_id sample_weight]> h)
    self.

Definition reset_on_drift (new_active_state_id : Z) (drift_timestep : Q)
    (h : Heap) (self : t) : Heap * t :=
  let buf := pop_while h drift_timestep (buffer self) in
  let active := pop_while h drift_timestep (active_window self) in
  let stable := pop_while h drift_timestep (stable_window self) in
  (relabel new_active_state_id buf (relabel new_active_state_id stable h),
   {| window_size := window_size self; buffer := buf;
      active_window := active; stable_window := stable |}).

End ObservationBuffer.

(** Python's [int(f)] truncates towards zero; of a finite float it is
    the exact integer part. *)
Definition py_int (q : Q) : Z := Z.quot (Qnum q) (Z.pos (Qden q)).

(** The slice [l[-n:]] for [n > 0]: the last [n] items. *)
Definition lastn {A} (n : nat) (l : list A) : list A := drop (length l - n) l.

(** Float addition and subtraction, [x + y] and [x - y] on Python
    floats: the exact result rounded to a float. *)
Class FloatArith := {
  float_add : Q → Q → Q;
  float_sub : Q → Q → Q
}.

(** IEEE double precision, on the specification of floats of the
    Standard Library.  [to_binary64] rounds a rational [n / 2^k], as
    every double is, to the nearest double; any other rational becomes
    the quotient of its numerator and its denominator, each rounded to
    a double first: for a decimal literal with both below 2^53 this is
    the nearest double.  The infinities and NaN, left out here, go
    to 0. *)
Definition to_binary64 (q : Q) : spec_float :=
  let d := Z.pos (Qden (Qred q)) in
  if (d =? 2 ^ Z.log2 d)%Z
  then binary_normalize 53 1024 (Qnum (Qred q)) (- Z.log2 d) false
  else SFdiv 53 1024
         (binary_normalize 53 1024 (Qnum (Qred q)) 0 false)
         (binary_normalize 53 1024 d 0 false).

Definition of_binary64 (f : spec_float) : Q :=
  match f with
  | S754_finite s m e =>
      Qred (inject_Z (if s then Z.neg m else Z.pos m)
            * (if (0 <=? e)%Z then inject_Z (2 ^ e)
               else / inject_Z (2 ^ (- e))))
  | _ => 0
  end.

Definition binary64_arith : FloatArith :=
  {| float_add a b :=
       of_binary64 (SFadd 53 1024 (to_binary64 a) (to_binary64 b));
     float_sub a b :=
       of_binary64 (SFsub 53 1024 (to_binary64 a) (to_binary64 b)) |}.

(** The double a decimal literal denotes. *)
Definition double (q : Q) : Q := of_binary64 (to_binary64 q).

(** Arithmetic without rounding. *)
Definition exact_arith : FloatArith :=
  {| float_add := Qplus; float_sub := Qminus |}.

Module SupervisedUnsupervisedBuffer.

Record t := mk {
  window_size : nat;
  unsupervised_buffer_timeout : Q;
  supervised_buffer_timeout : Q;
  release_strategy : string;
  keep_active_window_on_reset : bool;
  supervised_active_timestamp : Q;
  unsupervised_active_timestamp : Q;
  unsupervised_buffer : ObservationBuffer.t;
  supervised_buffer : ObservationBuffer.t;
  stable_unsupervised : list loc;
  stable_supervised : list loc
}.

(** [SupervisedUnsupervisedBuffer.__init__] *)
Definition init (window_size0 : nat)
    (unsupervised_buffer_timeout0 supervised_buffer_timeout0 : Q)
    (release_strategy0 : string) : t :=
  {| window_size := window_size0;
     unsupervised_buffer_timeout := unsupervised_buffer_timeout0;
     supervised_buffer_timeout := supervised_buffer_timeout0;
     release_strategy := release_strategy0;
     keep_active_window_on_reset := false;
     supervised_active_timestamp := 0;
     unsupervised_active_timestamp := 0;
     unsupervised_buffer := ObservationBuffer.init window_size0;
     supervised_buffer := ObservationBuffer.init window_size0;
     stable_unsupervised := [];
     stable_supervised := [] |}.

(** The attributes the methods assign to. *)
Definition set_unsupervised (clock : Q) (b : ObservationBuffer.t)
    (stable : list loc) (self : t) : t :=
  {| window_size := window_size self;
     unsupervised_buffer_timeout := unsupervised_buffer_timeout self;
     supervised_buffer_timeout := supervised_buffer_timeout self;
     release_strategy := release_strategy self;
     keep_active_window_on_reset := keep_active_window_on_reset self;
     supervised_active_timestamp := supervised_active_timestamp self;
     unsupervised_active_timestamp := clock;
     unsupervised_buffer := b;
     supervised_buffer := supervised_buffer self;
     stable_unsupervised := stable;
     stable_supervised := stable_supervised self |}.

Definition set_supervised (clock : Q) (b : ObservationBuffer.t)
    (stable : list loc) (self : t) : t :=
  {| window_size := window_size self;
     unsupervised_buffer_timeout := unsupervised_buffer_timeout self;
     supervised_buffer_timeout := supervised_buffer_timeout self;
     release_strategy := release_strategy self;
     keep_active_window_on_reset := keep_active_window_on_reset self;
     supervised_active_timestamp := clock;
     unsupervised_active_timestamp := unsupervised_active_timestamp self;
     unsupervised_buffer := unsupervised_buffer self;
     supervised_buffer := b;
     stable_unsupervised := stable_unsupervised self;
     stable_supervised := stable |}.

Definition get_unsupervised_timestamps `{FloatArith} (self : t) : Q * Q :=
  if bool_decide (release_strategy self ∈ ["independent"; "unsupervised"]) then
    (unsupervised_active_timestamp self,
     float_sub (unsupervised_active_timestamp self)
       (unsupervised_buffer_timeout self))
  else
    (supervised_active_timestamp self,
     float_sub (supervised_active_timestamp self)
       (supervised_buffer_timeout self)).

Definition get_supervised_timestamps `{FloatArith} (self : t) : Q * Q :=
  if bool_decide (release_strategy self ∈ ["independent"; "supervised"]) then
    (supervised_active_timestamp self,
     float_sub (supervised_active_timestamp self)
       (supervised_buffer_timeout self))
  else
    (unsupervised_active_timestamp self,
     float_sub (unsupervised_active_timestamp self)
       (unsupervised_buffer_timeout self)).

(** [deque[-1]] *)
Definition deque_last (d : list loc) : result loc :=
  match last d with
  | Some l => Ok l
  | None => Raise (IndexError "deque index out of range")
  end.

Definition buffer_unsupervised `{FloatArith} (x : gmap string Q)
    (active_state_id : Z) (current_timestamp sample_weight : Q)
    (h : Heap) (self : t) : result loc * Heap * t :=
  let clock :=
    if Qeq_bool current_timestamp (-1) then
      float_add (unsupervised_active_timestamp self) 1
    else current_timestamp in
  let self1 :=
    set_unsupervised clock (unsupervised_buffer self)
      (stable_unsupervised self) self in
  let stable_timestamp := (get_unsupervised_timestamps self1).2 in
  let '(released, h', b) :=
    ObservationBuffer.buffer_data x None
      (unsupervised_active_timestamp self1) stable_timestamp
      active_state_id sample_weight h (unsupervised_buffer self1) in
  (deque_last (ObservationBuffer.active_window b), h',
   set_unsupervised clock b (stable_unsupervised self1 ++ released) self1).

Definition buffer_supervised `{FloatArith} (x : gmap string Q)
    (y : ClfTarget) (active_state_id : Z)
    (current_timestamp sample_weight : Q)
    (h : Heap) (self : t) : result loc * Heap * t :=
  let clock :=
    if Qeq_bool current_timestamp (-1) then
      float_add (supervised_active_timestamp self) 1
    else current_timestamp in
  let self1 :=
    set_supervised clock (supervised_buffer self)
      (stable_supervised self) self in
  let stable_timestamp := (get_supervised_timestamps self1).2 in
  let '(released, h', b) :=
    ObservationBuffer.buffer_data x (Some y)
      (supervised_active_timestamp self1) stable_timestamp
      active_state_id sample_weight h (supervised_buffer self1) in
  (deque_last (ObservationBuffer.active_window b), h',
   set_supervised clock b (stable_supervised self1 ++ released) self1).

Definition collect_stable_unsupervised `{FloatArith} (h : Heap) (self : t)
    : list loc * Heap * t :=
  let stable_timestamp := (get_unsupervised_timestamps self).2 in
  let '(released, h', b) :=
    ObservationBuffer.release_buffer stable_timestamp h
      (unsupervised_buffer self) in
  let collected := stable_unsupervised self ++ released in
  (collected, h',
   set_unsupervised (unsupervised_active_timestamp self) b [] self).

Definition collect_stable_supervised `{FloatArith} (h : Heap) (self : t)
    : list loc * Heap * t :=
  let stable_timestamp := (get_supervised_timestamps self).2 in
  let '(released, h', b) :=
    ObservationBuffer.release_buffer stable_timestamp h
      (supervised_buffer self) in
  let collected := stable_supervised self ++ released in
  (collected, h',
   set_supervised (supervised_active_timestamp self) b [] self).

(** The truncation of an accumulation list in [reset_on_drift]. *)
Definition keep_remaining (remaining_stable : Z) (stable : list loc) : list loc :=
  if (0 <? remaining_stable)%Z then lastn (Z.to_nat remaining_stable) stable
  else [].

Definition reset_on_drift `{FloatArith} (next_active_state_id : Z)
    (drift_timestep : Q) (h : Heap) (self : t) : Heap * t :=
  let valid_previous_observations : Q :=
    if keep_active_window_on_reset self
    then inject_Z (Z.of_nat (window_size self)) else 0 in
  let '(active_timestamp, stable_timestamp) := get_unsupervised_timestamps self in
  let unsupervised_drift_timestep :=
    if Qeq_bool drift_timestep (-1)
    then float_sub active_timestamp valid_previous_observations
    else drift_timestep in
  let remaining_stable :=
    py_int (float_sub stable_timestamp unsupervised_drift_timestep) in
  let self1 :=
    set_unsupervised (unsupervised_active_timestamp self)
      (unsupervised_buffer self)
      (keep_remaining remaining_stable (stable_unsupervised self)) self in
  let '(active_timestamp, stable_timestamp) := get_supervised_timestamps self1 in
  let supervised_drift_timestep :=
    if Qeq_bool drift_timestep (-1)
    then float_sub active_timestamp valid_previous_observations
    else drift_timestep in
  let remaining_stable :=
    py_int (float_sub stable_timestamp supervised_drift_timestep) in
  let self2 :=
    set_supervised (supervised_active_timestamp self1)
      (supervised_buffer self1)
      (keep_remaining remaining_stable (stable_supervised self1)) self1 in
  let '(h1, ub) :=
    ObservationBuffer.reset_on_drift next_active_state_id
      unsupervised_drift_timestep h (unsupervised_buffer self2) in
  let '(h2, sb) :=
    ObservationBuffer.reset_on_drift next_active_state_id
      supervised_drift_timestep h1 (supervised_buffer self2) in
  (h2,
   set_supervised (supervised_active_timestamp self2) sb
     (stable_supervised self2)
     (set_unsupervised (unsupervised_active_timestamp self2) ub
        (stable_unsupervised self2) self2)).

End SupervisedUnsupervisedBuffer.

Abbreviation ObservationBuffer := ObservationBuffer.t.
Abbreviation SupervisedUnsupervisedBuffer := SupervisedUnsupervisedBuffer.t.

(** ** Call sequences and the predicates of the properties *)

(** A sequence of [add_prediction] calls, oldest first. *)
Definition add_predictions (calls : list (ClfTarget * Z)) (o : Observation)
    : Observation :=
  foldl (λ o' c, Observation.add_prediction c.1 c.2 o') o calls.

(** The value a clock takes in [buffer_supervised] and
    [buffer_unsupervised]. *)
Definition advance `{FloatArith} (clock current_timestamp : Q) : Q :=
  if Qeq_bool current_timestamp (-1) then float_add clock 1
  else current_timestamp.

(** The leading run of a deque that [pop_while] removes. *)
Fixpoint take_while (h : Heap) (t : Q) (q : list loc) : list loc :=
  match q with
  | [] => []
  | l :: rest =>
      if Qle_bool (seen_at_of h l) t then l :: take_while h t rest else []
  end.

(** A deque whose observations have non-decreasing [seen_at]. *)
Definition in_order (h : Heap) (q : list loc) : Prop :=
  StronglySorted (λ a b, (seen_at_of h a <= seen_at_of h b)%Q) q.

(** Calls that feed an [ObservationBuffer]. *)
Inductive feed_call :=
  | Add_observation (observation : loc) (stable_timestamp : Q)
  | Release_buffer (stable_timestamp : Q).

Definition feed_exec (h : Heap) (c : feed_call) (b : ObservationBuffer)
    : list loc * ObservationBuffer :=
  match c with
  | Add_observation observation stable_timestamp =>
      let r := ObservationBuffer.add_observation observation stable_timestamp h b in
      (r.1.1, r.2)
  | Release_buffer stable_timestamp =>
      let r := ObservationBuffer.release_buffer stable_timestamp h b in
      (r.1.1, r.2)
  end.

(** A sequence of calls, oldest first: the concatenation of what the
    calls returned, and the buffer after the last one. *)
Definition feed_run (h : Heap) (cs : list feed_call) (b : ObservationBuffer)
    : list loc * ObservationBuffer :=
  foldl (λ s c, let r := feed_exec h c s.2 in (s.1 ++ r.1, r.2)) ([], b) cs.

Definition inserted (cs : list feed_call) : list loc :=
  omap (λ c, match c with
             | Add_observation l _ => Some l
             | Release_buffer _ => None
             end) cs.

Definition thresholds (cs : list feed_call) : list Q :=
  (λ c, match c with
        | Add_observation _ t => t
        | Release_buffer t => t
        end) <$> cs.

(** [add_observation] before it calls [release_buffer]. *)
Definition pushed (l : loc) (b : ObservationBuffer) : ObservationBuffer :=
  {| ObservationBuffer.window_size := ObservationBuffer.window_size b;
     ObservationBuffer.buffer := ObservationBuffer.buffer b ++ [l];
     ObservationBuffer.active_window :=
       deque_append (ObservationBuffer.window_size b)
         (ObservationBuffer.active_window b) l;
     ObservationBuffer.stable_window := ObservationBuffer.stable_window b |}.

(** An [ObservationBuffer] fed with observations of non-decreasing
    [seen_at]: [fed_in_order H h b] holds when [b] results from method
    calls that inserted the observations [H], oldest first, each one no
    older than those before it.  Between calls the store may change as
    long as the inserted observations stay and keep their [seen_at]. *)
Inductive fed_in_order : list loc → Heap → ObservationBuffer → Prop :=
  | fed_init h ws : fed_in_order [] h (ObservationBuffer.init ws)
  | fed_add_observation H h b l t :
      fed_in_order H h b →
      l ∈ dom h →
      Forall (λ l', (seen_at_of h l' <= seen_at_of h l)%Q) H →
      fed_in_order (H ++ [l]) h (ObservationBuffer.add_observation l t h b).2
  | fed_buffer_data H h b x y ct st id w :
      fed_in_order H h b →
      Forall (λ l', (seen_at_of h l' <= ct)%Q) H →
      fed_in_order (H ++ [fresh (dom h)])
        (ObservationBuffer.buffer_data x y ct st id w h b).1.2
        (ObservationBuffer.buffer_data x y ct st id w h b).2
  | fed_release_buffer H h b t :
      fed_in_order H h b →
      fed_in_order H h (ObservationBuffer.release_buffer t h b).2
  | fed_reset_on_drift H h b id d :
      fed_in_order H h b →
      fed_in_order H (ObservationBuffer.reset_on_drift id d h b).1
        (ObservationBuffer.reset_on_drift id d h b).2
  | fed_store H h h' b :
      fed_in_order H h b →
      (∀ l, l ∈ H → l ∈ dom h' ∧ seen_at_of h' l = seen_at_of h l) →
      fed_in_order H h' b.

(** What is behind a buffer fed in order: the inserted observations are
    those dropped at drifts, then those released and kept ([kept]), then
    [buffer]; the windows are the last [window_size] items of the
    released and of the inserted observations that were kept. *)
Definition fed_shape (H : list loc) (h : Heap) (b : ObservationBuffer) : Prop :=
  ∃ dropped kept,
    H = dropped ++ kept ++ ObservationBuffer.buffer b
    ∧ ObservationBuffer.stable_window b
      = lastn (ObservationBuffer.window_size b) kept
    ∧ ObservationBuffer.active_window b
      = lastn (ObservationBuffer.window_size b)
          (kept ++ ObservationBuffer.buffer b)
    ∧ in_order h H
    ∧ Forall (λ l, l ∈ dom h) H.

(** The calls of an [ObservationBuffer]. *)
Inductive ob_call :=
  | Ob_buffer_data (x : gmap string Q) (y : option ClfTarget)
      (current_timestamp stable_timestamp : Q) (active_state_id : Z)
      (sample_weight : Q)
  | Ob_add_observation (observation : loc) (stable_timestamp : Q)
  | Ob_release_buffer (stable_timestamp : Q)
  | Ob_reset_on_drift (new_active_state_id : Z) (drift_timestep : Q).

Definition ob_exec (c : ob_call) (h : Heap) (b : ObservationBuffer)
    : Heap * ObservationBuffer :=
  match c with
  | Ob_buffer_data x y ct st id w =>
      let r := ObservationBuffer.buffer_data x y ct st id w h b in (r.1.2, r.2)
  | Ob_add_observation l st =>
      let r := ObservationBuffer.add_observation l st h b in (r.1.2, r.2)
  | Ob_release_buffer st =>
      let r := ObservationBuffer.release_buffer st h b in (r.1.2, r.2)
  | Ob_reset_on_drift id d => ObservationBuffer.reset_on_drift id d h b
  end.

(** The calls of a [SupervisedUnsupervisedBuffer] and what they return. *)
Inductive su_call :=
  | Buffer_unsupervised (x : gmap string Q) (active_state_id : Z)
      (current_timestamp sample_weight : Q)
  | Buffer_supervised (x : gmap string Q) (y : ClfTarget)
      (active_state_id : Z) (current_timestamp sample_weight : Q)
  | Collect_stable_unsupervised
  | Collect_stable_supervised
  | Reset_on_drift (next_active_state_id : Z) (drift_timestep : Q).

Inductive su_out :=
  | Buffered (r : result loc)
  | Collected_unsupervised (obs : list loc)
  | Collected_supervised (obs : list loc)
  | Reset_done.

Definition su_exec `{FloatArith} (c : su_call) (h : Heap)
    (s : SupervisedUnsupervisedBuffer)
    : su_out * Heap * SupervisedUnsupervisedBuffer :=
  match c with
  | Buffer_unsupervised x id ct w =>
      let r := SupervisedUnsupervisedBuffer.buffer_unsupervised x id ct w h s in
      (Buffered r.1.1, r.1.2, r.2)
  | Buffer_supervised x y id ct w =>
      let r := SupervisedUnsupervisedBuffer.buffer_supervised x y id ct w h s in
      (Buffered r.1.1, r.1.2, r.2)
  | Collect_stable_unsupervised =>
      let r := SupervisedUnsupervisedBuffer.collect_stable_unsupervised h s in
      (Collected_unsupervised r.1.1, r.1.2, r.2)
  | Collect_stable_supervised =>
      let r := SupervisedUnsupervisedBuffer.collect_stable_supervised h s in
      (Collected_supervised r.1.1, r.1.2, r.2)
  | Reset_on_drift id d =>
      let r := SupervisedUnsupervisedBuffer.reset_on_drift id d h s in
      (Reset_done, r.1, r.2)
  end.

(** A sequence of calls, oldest first: what each call returned, and the
    store and the buffer after the last one. *)
Definition su_run `{FloatArith} (cs : list su_call) (h : Heap)
    (s : SupervisedUnsupervisedBuffer)
    : list su_out * Heap * SupervisedUnsupervisedBuffer :=
  foldl (λ st c, let r := su_exec c st.1.2 st.2 in
                 (st.1.1 ++ [r.1.1], r.1.2, r.2)) ([], h, s) cs.

Definition ob_is_reset (c : ob_call) : bool :=
  match c with Ob_reset_on_drift _ _ => true | _ => false end.

Definition su_is_reset (c : su_call) : bool :=
  match c with Reset_on_drift _ _ => true | _ => false end.

(** Every observation of [h] is in [h'] with the same fields. *)
Definition keeps_observations (h h' : Heap) : Prop :=
  ∀ l o, h !! l = Some o → h' !! l = Some o.

(** No observation has [is_stable] set in [h'] that had not in [h]. *)
Definition never_marks_stable (h h' : Heap) : Prop :=
  ∀ l o', h' !! l = Some o' → Observation.is_stable o' = true →
          ∃ o, h !! l = Some o ∧ Observation.is_stable o = true.

Definition all_unstable (h : Heap) : Prop :=
  ∀ l o, h !! l = Some o → Observation.is_stable o = false.

(** Three observations, seen at 1, 2 and 3. *)
Definition store3 : Heap :=
  <[3%positive := Observation.init ∅ None 3 0 1]>
    (<[2%positive := Observation.init ∅ None 2 0 1]>
       (<[1%positive := Observation.init ∅ None 1 0 1]> ∅)).

(** Three observations seen at 1, 2 and 3, and a buffer of window size
    2 they were added to, the first one released. *)
Definition fed3 : ObservationBuffer :=
  (ObservationBuffer.add_observation 3 1 store3
     (ObservationBuffer.add_observation 2 1 store3
        (ObservationBuffer.add_observation 1 0 store3
           (ObservationBuffer.init 2)).2).2).2.

(** A sequence of [ObservationBuffer] calls, oldest first. *)
Definition ob_run (cs : list ob_call) (h : Heap) (b : ObservationBuffer)
    : Heap * ObservationBuffer :=
  foldl (λ st c, ob_exec c st.1 st.2) (h, b) cs.

(** Both windows within [window_size]. *)
Definition bounded_windows (b : ObservationBuffer) : Prop :=
  (length (ObservationBuffer.active_window b)
   <= ObservationBuffer.window_size b)%nat
  ∧ (length (ObservationBuffer.stable_window b)
     <= ObservationBuffer.window_size b)%nat.

(** What a call hands to the consumer, per track. *)
Definition collected_unsupervised (out : su_out) : list loc :=
  match out with Collected_unsupervised obs => obs | _ => [] end.

Definition collected_supervised (out : su_out) : list loc :=
  match out with Collected_supervised obs => obs | _ => [] end.

(** The observation a call creates, per track. *)
Definition created_unsupervised (c : su_call) (h : Heap) : list loc :=
  match c with Buffer_unsupervised _ _ _ _ => [fresh (dom h)] | _ => [] end.

Definition created_supervised (c : su_call) (h : Heap) : list loc :=
  match c with Buffer_supervised _ _ _ _ _ => [fresh (dom h)] | _ => [] end.

(** A buffering call is in time when it does not move its clock back:
    the clock it sets, the old one plus [1.0] for [-1.0] and the given
    timestamp otherwise, is at least the clock of its track. *)
Definition in_time `{FloatArith} (c : su_call)
    (s : SupervisedUnsupervisedBuffer) : Prop :=
  match c with
  | Buffer_unsupervised _ _ ct _ =>
      (SupervisedUnsupervisedBuffer.unsupervised_active_timestamp s
       <= advance
            (SupervisedUnsupervisedBuffer.unsupervised_active_timestamp s) ct)%Q
  | Buffer_supervised _ _ _ ct _ =>
      (SupervisedUnsupervisedBuffer.supervised_active_timestamp s
       <= advance
            (SupervisedUnsupervisedBuffer.supervised_active_timestamp s) ct)%Q
  | _ => True
  end.

(** Every call of the sequence is in time in the state it is made in. *)
Definition run_in_time `{FloatArith} (cs : list su_call) (h : Heap)
    (s : SupervisedUnsupervisedBuffer) : Prop :=
  ∀ cs1 c cs2, cs = cs1 ++ c :: cs2 → in_time c (su_run cs1 h s).2.

(** The drift timestep [reset_on_drift] of the two-track buffer uses
    for a track with timestamps [ts]. *)
Definition drift_of `{FloatArith} (d : Q) (s : SupervisedUnsupervisedBuffer)
    (ts : Q * Q) : Q :=
  if Qeq_bool d (-1) then
    float_sub ts.1
      (if SupervisedUnsupervisedBuffer.keep_active_window_on_reset s
       then inject_Z (Z.of_nat (SupervisedUnsupervisedBuffer.window_size s))
       else 0)
  else d.

(** What the properties that depend on the sign of a difference need
    of float subtraction, and what rounding to the nearest float gives
    on finite floats: the difference of [a <= b] is not positive,
    subtracting a non-negative float does not raise a float, and
    subtracting zero does not lower it. *)
Definition sub_respects_order `{FloatArith} : Prop :=
  ∀ a b : Q,
    ((a <= b)%Q → (float_sub a b <= 0)%Q)
    ∧ ((0 <= b)%Q → (float_sub a b <= a)%Q)
    ∧ (a <= float_sub a 0)%Q.

(** A track in step with its clock: its buffer was fed in order and
    holds nothing newer than the clock. *)
Definition track_in_order (h : Heap) (b : ObservationBuffer) (clock : Q) : Prop :=
  ∃ H, fed_in_order H h b
       ∧ Forall (λ l, (seen_at_of h l <= clock)%Q) H.

(** * Properties *)

(** ** Observation: predictions and relevance *)

Lemma add_prediction_lookup p state_id o k :
  Observation.predictions (Observation.add_prediction p state_id o) !! k
  = if decide (state_id = k) then Some p else Observation.predictions o !! k.
Proof. unfold Observation.add_prediction; simpl. apply lookup_insert. Qed.

Lemma add_predictions_snoc calls c o :
  add_predictions (calls ++ [c]) o
  = Observation.add_prediction c.1 c.2 (add_predictions calls o).
Proof. unfold add_predictions. by rewrite foldl_app. Qed.

Lemma add_predictions_present calls o k :
  is_Some (Observation.predictions o !! k) →
  is_Some (Observation.predictions (add_predictions calls o) !! k).
Proof.
  induction calls as [|c calls IH] using rev_ind; [by intros|].
  intros Hk. rewrite add_predictions_snoc, add_prediction_lookup.
  case_decide; eauto.
Qed.

Lemma add_predictions_other calls o k :
  Forall (λ c, c.2 ≠ k) calls →
  Observation.predictions (add_predictions calls o) !! k
  = Observation.predictions o !! k.
Proof.
  induction calls as [|c calls IH] using rev_ind; [by intros|].
  intros [Hcalls Hc%Forall_inv]%Forall_app.
  rewrite add_predictions_snoc, add_prediction_lookup.
  simpl in Hc. case_decide; [congruence|]. by apply IH.
Qed.

Lemma add_relevance_match v o :
  Observation.add_active_state_relevance v (Observation.active_state_id o) o
  = (Observation.set_active_state_relevance (Some v) o, Ok tt).
Proof.
  unfold Observation.add_active_state_relevance.
  rewrite bool_decide_eq_false_2; [done|]. by intros [].
Qed.

Lemma add_relevance_mismatch v id o :
  id ≠ Observation.active_state_id o →
  (Observation.add_active_state_relevance v id o).1 = o
  ∧ ∃ msg, (Observation.add_active_state_relevance v id o).2
           = Raise (ValueError msg).
Proof.
  intros Hid. unfold Observation.add_active_state_relevance.
  rewrite bool_decide_eq_true_2 by done. eauto.
Qed.

(** C7, as stated, fails: a second [add_prediction] for the same
    [state_id] replaces the stored label. *)
Lemma C7_counterexample :
  let o := Observation.init ∅ None 0 1 1 in
  let o1 := Observation.add_prediction (TInt 1) 7 o in
  let o2 := Observation.add_prediction (TInt 2) 7 o1 in
  Observation.predictions o1 !! 7%Z = Some (TInt 1)
  ∧ Observation.predictions o2 !! 7%Z = Some (TInt 2)
  ∧ Observation.predictions o2 !! 7%Z ≠ Observation.predictions o1 !! 7%Z.
Proof. vm_compute. split; [done|]. split; [done|]. discriminate. Qed.

(** C7 (amended): over every sequence of [add_prediction] calls an entry
    once present for a [state_id] is never removed; its label is kept by
    every sequence of calls for other state ids, and a later call for
    the same [state_id] stores the label of that call. *)
Theorem C7_predictions_never_removed (o : Observation)
    (calls : list (ClfTarget * Z)) (k : Z) (v : ClfTarget) :
  Observation.predictions o !! k = Some v →
  is_Some (Observation.predictions (add_predictions calls o) !! k)
  ∧ (Forall (λ c, c.2 ≠ k) calls →
     Observation.predictions (add_predictions calls o) !! k = Some v)
  ∧ (∀ p, Observation.predictions
            (Observation.add_prediction p k (add_predictions calls o)) !! k
          = Some p).
Proof.
  intros Hk. split; [|split].
  - apply add_predictions_present. by rewrite Hk.
  - intros Hcalls. by rewrite add_predictions_other.
  - intros p. rewrite add_prediction_lookup. by rewrite decide_True.
Qed.

Lemma C7_predictions_never_removed_witness :
  let o := Observation.add_prediction (TInt 1) 7
             (Observation.init ∅ None 0 1 1) in
  let calls := [(TInt 2, 8%Z); (TBool true, 9%Z)] in
  is_Some (Observation.predictions (add_predictions calls o) !! 7%Z)
  ∧ Observation.predictions (add_predictions calls o) !! 7%Z = Some (TInt 1).
Proof.
  intros o calls.
  destruct (C7_predictions_never_removed o calls 7 (TInt 1) eq_refl)
    as (Hpresent & Hkept & _).
  split; [exact Hpresent|]. apply Hkept.
  repeat constructor; simpl; discriminate.
Defined.

(** C5, as stated, fails: a second successful call replaces the value
    stored by the first. *)
Lemma C5_counterexample :
  let o := Observation.init ∅ None 0 1 1 in
  let r1 := Observation.add_active_state_relevance (1 # 2) 1 o in
  let r2 := Observation.add_active_state_relevance (7 # 10) 1 r1.1 in
  r1.2 = Ok tt ∧ r2.2 = Ok tt
  ∧ Observation.active_state_relevance r1.1 = Some (1 # 2)%Q
  ∧ Observation.active_state_relevance r2.1 = Some (7 # 10)%Q
  ∧ Observation.active_state_relevance r2.1
    ≠ Observation.active_state_relevance r1.1.
Proof. vm_compute. repeat split; discriminate. Qed.

(** C5 (amended): [active_state_relevance] is set by every successful
    call of [add_active_state_relevance]: a call with the matching id
    succeeds and stores its value, also when a value was stored before,
    so after two successful calls the stored value is that of the second. *)
Theorem C5_relevance_set_by_each_call (o : Observation) (v1 v2 : Q) :
  let id := Observation.active_state_id o in
  let r1 := Observation.add_active_state_relevance v1 id o in
  let r2 := Observation.add_active_state_relevance v2 id r1.1 in
  r1.2 = Ok tt ∧ Observation.active_state_relevance r1.1 = Some v1
  ∧ r2.2 = Ok tt ∧ Observation.active_state_relevance r2.1 = Some v2.
Proof.
  intros id r1 r2. subst r2 r1 id.
  rewrite add_relevance_match.
  pose proof (add_relevance_match v2
    (Observation.set_active_state_relevance (Some v1) o)) as Hsecond.
  change (Observation.active_state_id
            (Observation.set_active_state_relevance (Some v1) o))
    with (Observation.active_state_id o) in Hsecond.
  change ((Observation.set_active_state_relevance (Some v1) o, Ok tt).1)
    with (Observation.set_active_state_relevance (Some v1) o).
  rewrite Hsecond. done.
Qed.

(** C8: [add_active_state_relevance] with an id that differs from the
    observation's [active_state_id] raises [ValueError] and leaves the
    observation as it was (an unset relevance stays unset); with the
    matching id it succeeds and stores the value. *)
Theorem C8_relevance_guard (o : Observation) (v : Q) (id : Z) :
  (id ≠ Observation.active_state_id o →
     (∃ msg, (Observation.add_active_state_relevance v id o).2
             = Raise (ValueError msg))
     ∧ (Observation.add_active_state_relevance v id o).1 = o
     ∧ (Observation.active_state_relevance o = None →
        Observation.active_state_relevance
          (Observation.add_active_state_relevance v id o).1 = None))
  ∧ (id = Observation.active_state_id o →
     (Observation.add_active_state_relevance v id o).2 = Ok tt
     ∧ Observation.active_state_relevance
         (Observation.add_active_state_relevance v id o).1 = Some v).
Proof.
  split.
  - intros Hid. destruct (add_relevance_mismatch v id o Hid) as [Ho Hres].
    split; [done|]. split; [done|]. by rewrite Ho.
  - intros ->. by rewrite add_relevance_match.
Qed.

Lemma C8_relevance_guard_witness :
  let o := Observation.init ∅ None 0 1 1 in
  ((Observation.add_active_state_relevance (1 # 2) 2 o).1 = o
   ∧ Observation.active_state_relevance
       (Observation.add_active_state_relevance (1 # 2) 2 o).1 = None)
  ∧ (Observation.add_active_state_relevance (1 # 2) 1 o).2 = Ok tt.
Proof.
  intros o.
  destruct (C8_relevance_guard o (1 # 2) 2) as [Hwrong _].
  destruct (C8_relevance_guard o (1 # 2) 1) as [_ Hright].
  split.
  - destruct Hwrong as (_ & Hsame & Hunset); [vm_compute; discriminate|].
    split; [exact Hsame | apply Hunset; reflexivity].
  - apply Hright. reflexivity.
Defined.

(** ** Drift detector estimate *)

(** C9: [get_drift_detector_estimate] raises [ValueError] exactly when
    the detector has no attribute [estimation]; when it has one the
    call returns its value and raises nothing. *)
Theorem C9_estimate_iff_attribute (detector : DriftDetector) :
  ((∃ msg, get_drift_detector_estimate detector = Raise (ValueError msg))
   ↔ attributes detector !! "estimation" = None)
  ∧ (∀ v, attributes detector !! "estimation" = Some v →
          get_drift_detector_estimate detector = Ok v)
  ∧ (∀ e, get_drift_detector_estimate detector = Raise e →
          ∃ msg, e = ValueError msg).
Proof.
  unfold get_drift_detector_estimate, hasattr.
  rewrite lookup_total_alt.
  destruct (attributes detector !! "estimation") as [v|] eqn:Hattr.
  - rewrite bool_decide_eq_true_2 by eauto. simpl.
    split; [|split].
    + split; [intros [? ?]|]; discriminate.
    + by intros ? [= ->].
    + discriminate.
  - rewrite bool_decide_eq_false_2 by (by intros [? ?]).
    split; [|split].
    + split; eauto.
    + discriminate.
    + intros e [= <-]. eauto.
Qed.

Lemma C9_estimate_iff_attribute_witness :
  get_drift_detector_estimate
    (mkDriftDetector {[ "estimation" := (1 # 4)%Q ]}) = Ok (1 # 4)%Q
  ∧ ∃ msg, get_drift_detector_estimate
             (mkDriftDetector {[ "width" := 3%Q ]}) = Raise (ValueError msg).
Proof.
  split.
  - apply (C9_estimate_iff_attribute
             (mkDriftDetector {[ "estimation" := (1 # 4)%Q ]})).
    reflexivity.
  - apply (C9_estimate_iff_attribute
             (mkDriftDetector {[ "width" := 3%Q ]})).
    reflexivity.
Defined.

(** ** The two clocks *)

Import SupervisedUnsupervisedBuffer.




Section C6_binary64.
#[local] Existing Instance binary64_arith.


End C6_binary64.


Section C6_clock_at_2_53.
#[local] Existing Instance binary64_arith.


End C6_clock_at_2_53.

(** ** Deques and windows *)

Section lastn.
Context {A : Type}.
Implicit Types (l k : list A) (n : nat).

Lemma lastn_all n l : (length l <= n)%nat → lastn n l = l.
Proof.
  intros Hn. unfold lastn. by replace (length l - n)%nat with 0%nat by lia.
Qed.

Lemma lastn_app_ge n l k : (n <= length k)%nat → lastn n (l ++ k) = lastn n k.
Proof.
  intros Hn. unfold lastn. rewrite length_app.
  rewrite drop_app_ge by lia. f_equal. lia.
Qed.

Lemma lastn_app_le n l k :
  (length k <= n)%nat → lastn n (l ++ k) = lastn (n - length k) l ++ k.
Proof.
  intros Hn. unfold lastn. rewrite length_app.
  rewrite drop_app_le by lia. f_equal. f_equal. lia.
Qed.

Lemma lastn_lastn_app n l k : lastn n (lastn n l ++ k) = lastn n (l ++ k).
Proof.
  destruct (decide (n <= length k)%nat) as [Hn|Hn].
  - by rewrite !lastn_app_ge.
  - rewrite !lastn_app_le by lia. f_equal.
    unfold lastn. rewrite length_drop, drop_drop. f_equal. lia.
Qed.

Lemma lastn_suffix n l : lastn n l `suffix_of` l.
Proof. apply suffix_drop. Qed.

Lemma lastn_mono n m l : (n <= m)%nat → lastn n l `suffix_of` lastn m l.
Proof.
  intros Hnm. unfold lastn.
  replace (length l - n)%nat with ((length l - m) + (m `min` length l - n))%nat by lia.
  rewrite <- drop_drop. apply suffix_drop.
Qed.
End lastn.

Lemma deque_append_trim n (k : list loc) l :
  (length k <= n)%nat → deque_append n k l = lastn n (k ++ [l]).
Proof.
  intros Hk. unfold deque_append. rewrite length_app. simpl.
  destruct (Nat.ltb_spec n (length k + 1)) as [Hn|Hn].
  - unfold lastn. rewrite length_app. simpl.
    replace (length k + 1 - n)%nat with 1%nat by lia.
    by destruct k.
  - by rewrite lastn_all by (rewrite length_app; simpl; lia).
Qed.

Lemma deque_append_lastn n (q : list loc) l :
  deque_append n (lastn n q) l = lastn n (q ++ [l]).
Proof.
  rewrite deque_append_trim, lastn_lastn_app; [done|].
  unfold lastn. rewrite length_drop. lia.
Qed.

Lemma foldl_deque_append_lastn n (q r : list loc) :
  foldl (deque_append n) (lastn n q) r = lastn n (q ++ r).
Proof.
  revert q. induction r as [|l r IH]; intros q; simpl.
  - by rewrite app_nil_r.
  - rewrite deque_append_lastn, IH. by rewrite <- app_assoc.
Qed.

Section prefix_pop.
Context (h : Heap) (t : Q).
Implicit Types (q : list loc).

Lemma take_pop_while q : take_while h t q ++ pop_while h t q = q.
Proof.
  induction q as [|l q IH]; simpl; [done|].
  destruct (Qle_bool _ t); simpl; [by rewrite IH | done].
Qed.

Lemma take_while_le q : Forall (λ l, (seen_at_of h l <= t)%Q) (take_while h t q).
Proof.
  induction q as [|l q IH]; simpl; [constructor|].
  destruct (Qle_bool _ t) eqn:Hle; [|constructor].
  constructor; [by apply Qle_bool_iff | done].
Qed.

Lemma pop_while_suffix q : pop_while h t q `suffix_of` q.
Proof. exists (take_while h t q). by rewrite take_pop_while. Qed.

Lemma pop_while_head q l q' :
  pop_while h t q = l :: q' → (t < seen_at_of h l)%Q.
Proof.
  induction q as [|a q IH]; simpl; [done|].
  destruct (Qle_bool _ t) eqn:Hle; [done|].
  intros [= -> ->]. apply Qnot_le_lt. intros Hle'%Qle_bool_iff. congruence.
Qed.

Lemma in_order_suffix q q' : q' `suffix_of` q → in_order h q → in_order h q'.
Proof. intros [k ->]. apply StronglySorted_app_1_r. Qed.

Lemma in_order_above q l :
  in_order h (l :: q) → (t < seen_at_of h l)%Q →
  Forall (λ l', (t < seen_at_of h l')%Q) (l :: q).
Proof.
  intros Hq Hl. inversion_clear Hq as [|? ? _ Hall].
  constructor; [done|]. eapply Forall_impl; [exact Hall|].
  simpl. intros l' Hl'. lra.
Qed.

Lemma pop_while_above q :
  in_order h q → Forall (λ l, (t < seen_at_of h l)%Q) (pop_while h t q).
Proof.
  intros Hq. destruct (pop_while h t q) as [|l q'] eqn:Hpop; [constructor|].
  apply in_order_above; [|by eapply pop_while_head].
  rewrite <- Hpop. eapply in_order_suffix; [apply pop_while_suffix | done].
Qed.

Lemma pop_while_all_above q :
  Forall (λ l, (t < seen_at_of h l)%Q) q → pop_while h t q = q.
Proof.
  destruct q as [|l q]; [done|]. intros Hl%Forall_inv. simpl.
  destruct (Qle_bool _ t) eqn:Hle; [|done].
  apply Qle_bool_iff in Hle. lra.
Qed.

Lemma take_while_all_above q :
  Forall (λ l, (t < seen_at_of h l)%Q) q → take_while h t q = [].
Proof.
  destruct q as [|l q]; [done|]. intros Hl%Forall_inv. simpl.
  destruct (Qle_bool _ t) eqn:Hle; [|done].
  apply Qle_bool_iff in Hle. lra.
Qed.

Lemma take_while_app_le q k :
  Forall (λ l, (seen_at_of h l <= t)%Q) q →
  take_while h t (q ++ k) = q ++ take_while h t k.
Proof.
  induction q as [|l q IH]; [done|].
  intros [Hl Hq]%Forall_cons. simpl.
  apply Qle_bool_iff in Hl. rewrite Hl. by rewrite IH.
Qed.

Lemma pop_while_app_le q k :
  Forall (λ l, (seen_at_of h l <= t)%Q) q →
  pop_while h t (q ++ k) = pop_while h t k.
Proof.
  induction q as [|l q IH]; [done|].
  intros [Hl Hq]%Forall_cons. simpl.
  apply Qle_bool_iff in Hl. rewrite Hl. by rewrite IH.
Qed.
End prefix_pop.

Lemma release_loop_eq h t n buf stable released :
  ObservationBuffer.release_loop h t n buf stable released
  = (pop_while h t buf,
     foldl (deque_append n) stable (take_while h t buf),
     released ++ take_while h t buf).
Proof.
  revert stable released.
  induction buf as [|l buf IH]; intros stable released; simpl.
  - by rewrite app_nil_r.
  - destruct (Qle_bool _ t); [|by rewrite app_nil_r].
    rewrite IH. simpl. by rewrite <- app_assoc.
Qed.

Lemma release_buffer_eq t h b :
  ObservationBuffer.release_buffer t h b
  = (take_while h t (ObservationBuffer.buffer b), h,
     {| ObservationBuffer.window_size := ObservationBuffer.window_size b;
        ObservationBuffer.buffer := pop_while h t (ObservationBuffer.buffer b);
        ObservationBuffer.active_window := ObservationBuffer.active_window b;
        ObservationBuffer.stable_window :=
          foldl (deque_append (ObservationBuffer.window_size b))
            (ObservationBuffer.stable_window b)
            (take_while h t (ObservationBuffer.buffer b)) |}).
Proof.
  unfold ObservationBuffer.release_buffer. by rewrite release_loop_eq.
Qed.

Lemma feed_run_snoc h cs c b :
  feed_run h (cs ++ [c]) b
  = ((feed_run h cs b).1 ++ (feed_exec h c (feed_run h cs b).2).1,
     (feed_exec h c (feed_run h cs b).2).2).
Proof. unfold feed_run. by rewrite foldl_snoc. Qed.

Lemma inserted_snoc cs c :
  inserted (cs ++ [c])
  = inserted cs ++ match c with
                   | Add_observation l _ => [l]
                   | Release_buffer _ => []
                   end.
Proof. unfold inserted. rewrite omap_app. by destruct c. Qed.

(** After any sequence of calls on a new buffer: what was returned and
    what is still buffered make up the inserted observations, and the
    two windows hold the last [window_size] released and inserted
    observations. *)
Lemma feed_run_shape h ws cs :
  let r := feed_run h cs (ObservationBuffer.init ws) in
  ObservationBuffer.window_size r.2 = ws
  ∧ r.1 ++ ObservationBuffer.buffer r.2 = inserted cs
  ∧ ObservationBuffer.stable_window r.2 = lastn ws r.1
  ∧ ObservationBuffer.active_window r.2 = lastn ws (inserted cs).
Proof.
  induction cs as [|c cs IH] using rev_ind; [done|].
  rewrite feed_run_snoc, inserted_snoc.
  destruct (feed_run h cs (ObservationBuffer.init ws)) as [outs b].
  simpl in *. destruct IH as (Hws & Hins & Hstable & Hactive).
  destruct c as [l t|t]; simpl.
  - unfold ObservationBuffer.add_observation.
    rewrite release_buffer_eq; simpl.
    rewrite Hws, Hstable, Hactive.
    rewrite foldl_deque_append_lastn, deque_append_lastn.
    split; [done|]. split; [|done].
    rewrite <- app_assoc, take_pop_while, app_assoc. by rewrite Hins.
  - rewrite release_buffer_eq; simpl.
    rewrite Hws, Hstable, foldl_deque_append_lastn, app_nil_r.
    split; [done|]. split; [|done].
    by rewrite <- app_assoc, take_pop_while.
Qed.

Lemma feed_run_released_le h cs b t :
  Forall (λ t', (t' <= t)%Q) (thresholds cs) →
  Forall (λ l, (seen_at_of h l <= t)%Q) (feed_run h cs b).1.
Proof.
  induction cs as [|c cs IH] using rev_ind; [constructor|].
  unfold thresholds. rewrite fmap_app.
  intros [Hcs Hc%Forall_inv]%Forall_app.
  rewrite feed_run_snoc. simpl. apply Forall_app. split; [by apply IH|].
  assert (∀ t' q, (t' <= t)%Q →
            Forall (λ l, (seen_at_of h l <= t)%Q) (take_while h t' q)) as Hle.
  { intros t' q Ht'. eapply Forall_impl; [apply take_while_le|].
    simpl. intros l Hl. lra. }
  destruct c as [l t'|t']; simpl in *.
  - unfold ObservationBuffer.add_observation.
    rewrite release_buffer_eq. simpl. by apply Hle.
  - rewrite release_buffer_eq. simpl. by apply Hle.
Qed.

(** C1: after add_observation (and release_buffer) calls on a new buffer
    with observations of non-decreasing [seen_at], [release_buffer t]
    returns the longest prefix of [buffer] with [seen_at <= t], in
    insertion order: it removes that prefix from [buffer], nothing it
    returns has [seen_at > t], everything it leaves has, and
    [stable_window] ends up with the last [window_size] items of its old
    contents followed by the returned ones.  When no earlier call had a
    threshold above [t], all that was returned so far, in order, is the
    prefix of the inserted observations with [seen_at <= t]. *)
Theorem C1_release_buffer_prefix (ws : nat) (h : Heap) (cs : list feed_call)
    (t : Q) :
  in_order h (inserted cs) →
  let '(outs, b) := feed_run h cs (ObservationBuffer.init ws) in
  let '(released, h', b') := ObservationBuffer.release_buffer t h b in
  ObservationBuffer.buffer b = released ++ ObservationBuffer.buffer b'
  ∧ released = take_while h t (ObservationBuffer.buffer b)
  ∧ Forall (λ l, (seen_at_of h l <= t)%Q) released
  ∧ Forall (λ l, (t < seen_at_of h l)%Q) (ObservationBuffer.buffer b')
  ∧ ObservationBuffer.stable_window b'
    = lastn ws (ObservationBuffer.stable_window b ++ released)
  ∧ ObservationBuffer.active_window b' = ObservationBuffer.active_window b
  ∧ h' = h
  ∧ (Forall (λ t', (t' <= t)%Q) (thresholds cs) →
     outs ++ released = take_while h t (inserted cs)
     ∧ inserted cs = (outs ++ released) ++ ObservationBuffer.buffer b').
Proof.
  intros Hsorted.
  pose proof (feed_run_shape h ws cs) as Hshape.
  pose proof (feed_run_released_le h cs (ObservationBuffer.init ws) t) as Hle.
  destruct (feed_run h cs (ObservationBuffer.init ws)) as [outs b].
  simpl in Hshape, Hle. destruct Hshape as (Hws & Hins & Hstable & Hactive).
  rewrite release_buffer_eq.
  assert (in_order h (ObservationBuffer.buffer b)) as Hbuf.
  { eapply in_order_suffix; [|exact Hsorted]. exists outs. by rewrite Hins. }
  repeat split.
  - by rewrite take_pop_while.
  - apply take_while_le.
  - by apply pop_while_above.
  - simpl. rewrite Hws, Hstable.
    by rewrite foldl_deque_append_lastn, lastn_lastn_app.
  - rewrite <- Hins. by rewrite take_while_app_le by auto.
  - simpl. by rewrite <- app_assoc, take_pop_while.
Qed.

Lemma C1_release_buffer_prefix_witness :
  let cs := [Add_observation 1%positive 0; Add_observation 2%positive 1;
             Add_observation 3%positive 1] in
  in_order store3 (inserted cs)
  ∧ let '(outs, b) := feed_run store3 cs (ObservationBuffer.init 2) in
    let '(released, h', b') := ObservationBuffer.release_buffer 2 store3 b in
    Forall (λ l, (seen_at_of store3 l <= 2)%Q) released
    ∧ outs ++ released = take_while store3 2 (inserted cs).
Proof.
  intros cs.
  assert (in_order store3 (inserted cs)) as Hsorted.
  { repeat constructor; vm_compute; discriminate. }
  split; [exact Hsorted|].
  pose proof (C1_release_buffer_prefix 2 store3 cs 2 Hsorted) as Hc1.
  destruct (feed_run store3 cs (ObservationBuffer.init 2)) as [outs b].
  destruct (ObservationBuffer.release_buffer 2 store3 b) as [[released h'] b'].
  destruct Hc1 as (_ & _ & Hle & _ & _ & _ & _ & Hall).
  split; [exact Hle|]. apply Hall.
  repeat constructor; vm_compute; discriminate.
Defined.

Example feed_run_store3 :
  feed_run store3
    [Add_observation 1%positive 0; Add_observation 2%positive 1;
     Add_observation 3%positive 1; Release_buffer 2]
    (ObservationBuffer.init 1)
  = ([1%positive; 2%positive],
     {| ObservationBuffer.window_size := 1;
        ObservationBuffer.buffer := [3%positive];
        ObservationBuffer.active_window := [3%positive];
        ObservationBuffer.stable_window := [2%positive] |}).
Proof. reflexivity. Qed.

(** ** Buffers fed in order *)

Lemma set_active_state_id_idemp id o :
  Observation.set_active_state_id id (Observation.set_active_state_id id o)
  = Observation.set_active_state_id id o.
Proof. done. Qed.

Lemma relabel_lookup id ls (h : Heap) l :
  relabel id ls h !! l
  = if decide (l ∈ ls) then Observation.set_active_state_id id <$> h !! l
    else h !! l.
Proof.
  revert h. induction ls as [|a ls IH]; intros h; [done|].
  change (relabel id (a :: ls) h)
    with (relabel id ls (alter (Observation.set_active_state_id id) a h)).
  rewrite IH, lookup_alter.
  destruct (decide (l ∈ ls)) as [Hin|Hnin].
  - rewrite (decide_True (P := l ∈ a :: ls)) by (by right).
    case_decide as Heq; [|done]. subst a.
    destruct (h !! l); [|done]. simpl. by rewrite set_active_state_id_idemp.
  - case_decide as Heq.
    + subst a. by rewrite (decide_True (P := l ∈ l :: ls)) by left.
    + rewrite (decide_False (P := l ∈ a :: ls)); [done|].
      rewrite elem_of_cons. by intros [->|].
Qed.

Lemma relabel_seen_at id ls h l :
  seen_at_of (relabel id ls h) l = seen_at_of h l.
Proof.
  unfold seen_at_of. rewrite !lookup_total_alt, relabel_lookup.
  case_decide; [|done]. by destruct (h !! l).
Qed.

Lemma relabel_dom id ls (h : Heap) l : l ∈ dom (relabel id ls h) ↔ l ∈ dom h.
Proof.
  rewrite !elem_of_dom, relabel_lookup. case_decide; [|done].
  by rewrite fmap_is_Some.
Qed.

Lemma relabel_is_stable id ls (h : Heap) l :
  Observation.is_stable <$> relabel id ls h !! l
  = Observation.is_stable <$> h !! l.
Proof.
  rewrite relabel_lookup. case_decide; [|done]. by destruct (h !! l).
Qed.

Lemma relabel_labelled id ls (h : Heap) l :
  l ∈ ls → l ∈ dom h →
  Observation.active_state_id (relabel id ls h !!! l) = id.
Proof.
  intros Hl [o Ho]%elem_of_dom.
  rewrite lookup_total_alt, relabel_lookup, decide_True, Ho by done. done.
Qed.

Lemma relabel_keeps_label id ls (h : Heap) l :
  Observation.active_state_id (h !!! l) = id →
  Observation.active_state_id (relabel id ls h !!! l) = id.
Proof.
  rewrite !lookup_total_alt, relabel_lookup.
  case_decide; [|done]. by destruct (h !! l).
Qed.

Lemma in_order_ext h h' q :
  (∀ l, l ∈ q → seen_at_of h' l = seen_at_of h l) →
  in_order h q → in_order h' q.
Proof.
  unfold in_order. induction q as [|a q IH]; intros Hext Hq; [constructor|].
  inversion_clear Hq as [|? ? Hq' Hall]. constructor.
  - apply IH; [|done]. intros l Hl. apply Hext. set_solver.
  - apply Forall_forall. intros l Hl.
    rewrite Forall_forall in Hall.
    rewrite !Hext by set_solver. by apply Hall.
Qed.

Lemma pop_while_ext h h' t q :
  (∀ l, l ∈ q → seen_at_of h' l = seen_at_of h l) →
  pop_while h' t q = pop_while h t q.
Proof.
  induction q as [|a q IH]; intros Hext; [done|]. simpl.
  rewrite Hext by set_solver. rewrite IH; [done|].
  intros l Hl. apply Hext. set_solver.
Qed.

Lemma take_while_ext h h' t q :
  (∀ l, l ∈ q → seen_at_of h' l = seen_at_of h l) →
  take_while h' t q = take_while h t q.
Proof.
  induction q as [|a q IH]; intros Hext; [done|]. simpl.
  rewrite Hext by set_solver. rewrite IH; [done|].
  intros l Hl. apply Hext. set_solver.
Qed.

Lemma pop_while_app h t q k :
  pop_while h t (q ++ k)
  = match pop_while h t q with
    | [] => pop_while h t k
    | l :: q' => (l :: q') ++ k
    end.
Proof.
  induction q as [|a q IH]; [done|]. simpl.
  destruct (Qle_bool _ t); [done|done].
Qed.

Lemma in_order_app_above h t q k l :
  in_order h (q ++ k) → l ∈ q → (t < seen_at_of h l)%Q →
  Forall (λ l', (t < seen_at_of h l')%Q) k.
Proof.
  intros Hsorted Hl Ht. apply Forall_forall. intros l' Hl'.
  pose proof (StronglySorted_app_1_elem_of _ _ _ _ _ Hsorted Hl Hl') as Hle.
  simpl in Hle. lra.
Qed.

Lemma pop_while_lastn h t n q :
  in_order h q → pop_while h t (lastn n q) = lastn n (pop_while h t q).
Proof.
  intros Hq. pose proof (pop_while_above h t q Hq) as Habove.
  pose proof (take_while_le h t q) as Hbelow.
  rewrite <- (take_pop_while h t q) at 1.
  destruct (decide (n <= length (pop_while h t q))%nat) as [Hn|Hn].
  - rewrite lastn_app_ge by done. apply pop_while_all_above.
    eapply Forall_forall. intros l Hl. rewrite Forall_forall in Habove.
    apply Habove. by eapply elem_of_suffix; [|apply lastn_suffix].
  - rewrite lastn_app_le by lia. rewrite pop_while_app_le.
    + rewrite pop_while_all_above by done. by rewrite lastn_all by lia.
    + apply Forall_forall. intros l Hl. rewrite Forall_forall in Hbelow.
      apply Hbelow. by eapply elem_of_suffix; [|apply lastn_suffix].
Qed.

Lemma elem_of_lastn_app n (q k : list loc) l :
  l ∈ lastn n (q ++ k) → l ∈ k ∨ l ∈ lastn n q.
Proof.
  destruct (decide (n <= length k)%nat) as [Hn|Hn].
  - rewrite lastn_app_ge by done. intros Hl. left.
    by eapply elem_of_suffix; [|apply lastn_suffix].
  - rewrite lastn_app_le by lia. intros [Hl|Hl]%elem_of_app; [|by left].
    right. eapply elem_of_suffix; [exact Hl|]. apply lastn_mono. lia.
Qed.

Lemma release_buffer_heap t h b :
  (ObservationBuffer.release_buffer t h b).1.2 = h.
Proof. by rewrite release_buffer_eq. Qed.

Lemma fed_shape_store H h h' b :
  fed_shape H h b →
  (∀ l, l ∈ H → l ∈ dom h' ∧ seen_at_of h' l = seen_at_of h l) →
  fed_shape H h' b.
Proof.
  intros (dropped & kept & HH & Hstable & Hactive & Hsorted & Hdom) Hstore.
  exists dropped, kept. repeat split; try done.
  - eapply in_order_ext; [|exact Hsorted]. intros l Hl. by apply Hstore.
  - apply Forall_forall. intros l Hl. by apply Hstore.
Qed.

Lemma fed_shape_push H h b l :
  fed_shape H h b →
  l ∈ dom h →
  Forall (λ l', (seen_at_of h l' <= seen_at_of h l)%Q) H →
  fed_shape (H ++ [l]) h (pushed l b).
Proof.
  intros (dropped & kept & HH & Hstable & Hactive & Hsorted & Hdom) Hl Hle.
  exists dropped, kept. simpl. repeat split.
  - rewrite HH. by rewrite <- !app_assoc.
  - done.
  - rewrite Hactive, deque_append_lastn. by rewrite <- app_assoc.
  - apply StronglySorted_app_2; [|done|repeat constructor].
    intros l1 l2 Hl1 ->%list_elem_of_singleton.
    rewrite Forall_forall in Hle. by apply Hle.
  - apply Forall_app. split; [done|]. by constructor.
Qed.

Lemma fed_shape_release H h b t :
  fed_shape H h b →
  fed_shape H h (ObservationBuffer.release_buffer t h b).2.
Proof.
  intros (dropped & kept & HH & Hstable & Hactive & Hsorted & Hdom).
  rewrite release_buffer_eq. simpl.
  exists dropped, (kept ++ take_while h t (ObservationBuffer.buffer b)).
  simpl. repeat split; try done.
  - by rewrite <- app_assoc, take_pop_while.
  - by rewrite Hstable, foldl_deque_append_lastn.
  - by rewrite <- app_assoc, take_pop_while.
Qed.

Lemma fed_shape_reset H h b id d :
  fed_shape H h b →
  fed_shape H (ObservationBuffer.reset_on_drift id d h b).1
    (ObservationBuffer.reset_on_drift id d h b).2.
Proof.
  intros Hshape. unfold ObservationBuffer.reset_on_drift. simpl.
  apply (fed_shape_store H h); cycle 1.
  { intros l Hl. split.
    - do 2 apply relabel_dom.
      destruct Hshape as (_ & _ & _ & _ & _ & _ & Hdom).
      rewrite Forall_forall in Hdom. by apply Hdom.
    - by rewrite 2!relabel_seen_at. }
  destruct Hshape as (dropped & kept & HH & Hstable & Hactive & Hsorted & Hdom).
  assert (in_order h (kept ++ ObservationBuffer.buffer b)) as Hkb.
  { rewrite HH in Hsorted. by apply StronglySorted_app_1_r in Hsorted. }
  assert (in_order h kept) as Hkept by by apply StronglySorted_app_1_l in Hkb.
  exists (dropped ++ take_while h d (kept ++ ObservationBuffer.buffer b)),
    (pop_while h d kept).
  simpl. rewrite Hstable, Hactive, !pop_while_lastn by done.
  assert (pop_while h d kept ++ pop_while h d (ObservationBuffer.buffer b)
          = pop_while h d (kept ++ ObservationBuffer.buffer b)) as Hpop.
  { rewrite pop_while_app.
    destruct (pop_while h d kept) as [|l q] eqn:Hkept'; [done|].
    rewrite pop_while_all_above; [done|].
    eapply in_order_app_above; [exact Hkb| |by eapply pop_while_head].
    eapply elem_of_suffix; [|apply (pop_while_suffix h d)].
    rewrite Hkept'. by left. }
  rewrite Hpop. repeat split; try done.
  by rewrite <- app_assoc, take_pop_while.
Qed.

Lemma fed_in_order_shape H h b : fed_in_order H h b → fed_shape H h b.
Proof.
  induction 1 as [h ws|H h b l t _ IH Hl Hle|H h b x y ct st id w _ IH Hle
                  |H h b t _ IH|H h b id d _ IH|H h h' b _ IH Hstore].
  - exists [], []. repeat split; try done; constructor.
  - apply (fed_shape_release _ _ (pushed l b)). by apply fed_shape_push.
  - unfold ObservationBuffer.buffer_data, ObservationBuffer.add_observation.
    set (l := fresh (dom h)).
    set (h1 := <[l := Observation.init x y ct id w]> h).
    assert (l ∉ dom h) as Hfresh by apply is_fresh.
    assert (∀ l', l' ∈ H → l' ∈ dom h1 ∧ seen_at_of h1 l' = seen_at_of h l')
      as Hstore.
    { intros l' Hl'. destruct IH as (_ & _ & _ & _ & _ & _ & Hdom).
      rewrite Forall_forall in Hdom. specialize (Hdom l' Hl').
      assert (l ≠ l') as Hne by (by intros ->).
      unfold h1, seen_at_of. split.
      - apply elem_of_dom. rewrite lookup_insert_ne by done.
        by apply elem_of_dom.
      - by rewrite lookup_total_insert_ne by done. }
    assert (seen_at_of h1 l = ct) as Hct.
    { unfold h1, seen_at_of. by rewrite lookup_total_insert_eq. }
    fold (pushed l b). rewrite release_buffer_heap.
    apply (fed_shape_release _ h1 (pushed l b) st).
    apply fed_shape_push.
    + by eapply fed_shape_store.
    + apply elem_of_dom. unfold h1. rewrite lookup_insert_eq. eauto.
    + rewrite Hct. apply Forall_forall. intros l' Hl'.
      rewrite (proj2 (Hstore l' Hl')).
      rewrite Forall_forall in Hle. by apply Hle.
  - by apply fed_shape_release.
  - by apply fed_shape_reset.
  - by eapply fed_shape_store.
Qed.

Lemma fed_shape_windows H h b l :
  fed_shape H h b →
  l ∈ ObservationBuffer.active_window b →
  l ∈ ObservationBuffer.buffer b ∨ l ∈ ObservationBuffer.stable_window b.
Proof.
  intros (dropped & kept & _ & Hstable & Hactive & _ & _).
  rewrite Hstable, Hactive. apply elem_of_lastn_app.
Qed.

Lemma fed_shape_in_order H h b :
  fed_shape H h b →
  in_order h (ObservationBuffer.buffer b)
  ∧ in_order h (ObservationBuffer.active_window b)
  ∧ in_order h (ObservationBuffer.stable_window b).
Proof.
  intros (dropped & kept & HH & Hstable & Hactive & Hsorted & _).
  rewrite HH in Hsorted. apply StronglySorted_app_1_r in Hsorted.
  rewrite Hstable, Hactive. split; [|split].
  - by apply StronglySorted_app_1_r in Hsorted.
  - eapply in_order_suffix; [apply lastn_suffix | done].
  - eapply in_order_suffix; [apply lastn_suffix |].
    by apply StronglySorted_app_1_l in Hsorted.
Qed.

Lemma fed_shape_dom H h b l :
  fed_shape H h b →
  l ∈ ObservationBuffer.buffer b ∨ l ∈ ObservationBuffer.stable_window b →
  l ∈ dom h.
Proof.
  intros (dropped & kept & HH & Hstable & _ & _ & Hdom) Hl.
  rewrite Forall_forall in Hdom. apply Hdom. rewrite HH, !elem_of_app.
  destruct Hl as [Hl|Hl]; [by right; right|]. right; left.
  rewrite Hstable in Hl. by eapply elem_of_suffix; [|apply lastn_suffix].
Qed.

(** After [reset_on_drift] every remaining observation is newer than
    the drift. *)
Lemma reset_on_drift_above H h b id d :
  fed_in_order H h b →
  let r := ObservationBuffer.reset_on_drift id d h b in
  Forall (λ l, (d < seen_at_of r.1 l)%Q) (ObservationBuffer.buffer r.2)
  ∧ Forall (λ l, (d < seen_at_of r.1 l)%Q) (ObservationBuffer.active_window r.2)
  ∧ Forall (λ l, (d < seen_at_of r.1 l)%Q) (ObservationBuffer.stable_window r.2).
Proof.
  intros Hfed%fed_in_order_shape.
  destruct (fed_shape_in_order _ _ _ Hfed) as (Hbuf & Hactive & Hstable).
  unfold ObservationBuffer.reset_on_drift. simpl.
  assert (∀ q, in_order h q →
    Forall (λ l, (d < seen_at_of
        (relabel id (pop_while h d (ObservationBuffer.buffer b))
           (relabel id (pop_while h d (ObservationBuffer.stable_window b)) h))
        l)%Q) (pop_while h d q)) as Habove.
  { intros q Hq. eapply Forall_impl; [by apply pop_while_above|].
    simpl. intros l Hl. by rewrite 2!relabel_seen_at. }
  auto.
Qed.

(** After [reset_on_drift] the observations left in [buffer] and in
    [stable_window] carry the new state id. *)
Lemma reset_on_drift_labelled H h b id d l :
  fed_in_order H h b →
  let r := ObservationBuffer.reset_on_drift id d h b in
  l ∈ ObservationBuffer.buffer r.2 ∨ l ∈ ObservationBuffer.stable_window r.2 →
  Observation.active_state_id (r.1 !!! l) = id.
Proof.
  intros Hfed%fed_in_order_shape. unfold ObservationBuffer.reset_on_drift.
  simpl. intros Hl.
  assert (l ∈ dom h) as Hdom.
  { eapply fed_shape_dom; [exact Hfed|].
    destruct Hl as [Hl|Hl]; [left|right];
      (eapply elem_of_suffix; [exact Hl | apply pop_while_suffix]). }
  destruct Hl as [Hl|Hl].
  - apply relabel_labelled; [done|]. by apply relabel_dom.
  - apply relabel_keeps_label. by apply relabel_labelled.
Qed.

(** C2: for a buffer fed with observations of non-decreasing [seen_at],
    after [reset_on_drift new_id d] no observation in [buffer],
    [active_window] or [stable_window] has [seen_at <= d], and every
    observation left in [buffer] and in [stable_window] has
    [active_state_id = new_id]. *)
Theorem C2_reset_on_drift_prunes_and_relabels (H : list loc) (h : Heap)
    (b : ObservationBuffer) (new_id : Z) (d : Q) :
  fed_in_order H h b →
  let '(h', b') := ObservationBuffer.reset_on_drift new_id d h b in
  Forall (λ l, (d < seen_at_of h' l)%Q) (ObservationBuffer.buffer b')
  ∧ Forall (λ l, (d < seen_at_of h' l)%Q) (ObservationBuffer.active_window b')
  ∧ Forall (λ l, (d < seen_at_of h' l)%Q) (ObservationBuffer.stable_window b')
  ∧ Forall (λ l, Observation.active_state_id (h' !!! l) = new_id)
      (ObservationBuffer.buffer b')
  ∧ Forall (λ l, Observation.active_state_id (h' !!! l) = new_id)
      (ObservationBuffer.stable_window b').
Proof.
  intros Hfed.
  pose proof (reset_on_drift_above H h b new_id d Hfed) as Habove.
  pose proof (λ l, reset_on_drift_labelled H h b new_id d l Hfed) as Hlabel.
  destruct (ObservationBuffer.reset_on_drift new_id d h b) as [h' b'].
  simpl in Habove, Hlabel. destruct Habove as (Hbuf & Hactive & Hstable).
  repeat split; try done; apply Forall_forall; intros l Hl; apply Hlabel; auto.
Qed.

(** C3: for a buffer fed with observations of non-decreasing [seen_at],
    after [reset_on_drift new_id d] every observation left in
    [active_window] has [active_state_id = new_id] too: an observation
    of [active_window] that is not in [buffer] is, as the same object,
    in [stable_window] (before the call and after it), so the relabelling
    of [buffer] and [stable_window] reaches it. *)
Theorem C3_active_window_shares_relabelled (H : list loc) (h : Heap)
    (b : ObservationBuffer) (new_id : Z) (d : Q) :
  fed_in_order H h b →
  let '(h', b') := ObservationBuffer.reset_on_drift new_id d h b in
  Forall (λ l, Observation.active_state_id (h' !!! l) = new_id)
    (ObservationBuffer.active_window b')
  ∧ (∀ l, l ∈ ObservationBuffer.active_window b' →
          l ∉ ObservationBuffer.buffer b' →
          l ∈ ObservationBuffer.stable_window b')
  ∧ (∀ l, l ∈ ObservationBuffer.active_window b →
          l ∉ ObservationBuffer.buffer b →
          l ∈ ObservationBuffer.stable_window b).
Proof.
  intros Hfed.
  pose proof (λ l, reset_on_drift_labelled H h b new_id d l Hfed) as Hlabel.
  pose proof (fed_in_order_shape _ _ _ (fed_reset_on_drift H h b new_id d Hfed))
    as Hafter.
  pose proof (fed_in_order_shape _ _ _ Hfed) as Hbefore.
  destruct (ObservationBuffer.reset_on_drift new_id d h b) as [h' b'].
  simpl in Hlabel, Hafter. split; [|split].
  - apply Forall_forall. intros l Hl. apply Hlabel.
    by eapply fed_shape_windows.
  - intros l Hl Hbuf.
    by destruct (fed_shape_windows _ _ _ l Hafter Hl).
  - intros l Hl Hbuf.
    by destruct (fed_shape_windows _ _ _ l Hbefore Hl).
Qed.

Lemma fed3_in_order : fed_in_order [1; 2; 3]%positive store3 fed3.
Proof.
  assert (∀ l o, store3 !! l = Some o → l ∈ dom store3) as Hdom.
  { intros l o Hl. apply elem_of_dom. by exists o. }
  apply (fed_add_observation [1; 2]%positive store3 _ 3%positive 1);
    [|by eapply Hdom|repeat constructor; vm_compute; discriminate].
  apply (fed_add_observation [1]%positive store3 _ 2%positive 1);
    [|by eapply Hdom|repeat constructor; vm_compute; discriminate].
  apply (fed_add_observation [] store3 _ 1%positive 0);
    [|by eapply Hdom|constructor].
  apply fed_init.
Defined.

Lemma C2_reset_on_drift_prunes_and_relabels_witness :
  fed_in_order [1; 2; 3]%positive store3 fed3
  ∧ let '(h', b') := ObservationBuffer.reset_on_drift 7 2 store3 fed3 in
    Forall (λ l, (2 < seen_at_of h' l)%Q) (ObservationBuffer.active_window b')
    ∧ Forall (λ l, Observation.active_state_id (h' !!! l) = 7%Z)
        (ObservationBuffer.buffer b').
Proof.
  split; [exact fed3_in_order|].
  pose proof (C2_reset_on_drift_prunes_and_relabels _ _ _ 7 2 fed3_in_order)
    as Hc2.
  destruct (ObservationBuffer.reset_on_drift 7 2 store3 fed3) as [h' b'].
  destruct Hc2 as (_ & Hactive & _ & Hbuf & _). by split.
Defined.

Lemma C3_active_window_shares_relabelled_witness :
  let b := (ObservationBuffer.release_buffer 2 store3 fed3).2 in
  fed_in_order [1; 2; 3]%positive store3 b
  ∧ let '(h', b') := ObservationBuffer.reset_on_drift 7 1 store3 b in
    Forall (λ l, Observation.active_state_id (h' !!! l) = 7%Z)
      (ObservationBuffer.active_window b')
    ∧ (∀ l, l ∈ ObservationBuffer.active_window b' →
            l ∉ ObservationBuffer.buffer b' →
            l ∈ ObservationBuffer.stable_window b').
Proof.
  intros b.
  assert (fed_in_order [1; 2; 3]%positive store3 b) as Hfed
    by apply fed_release_buffer, fed3_in_order.
  split; [exact Hfed|].
  pose proof (C3_active_window_shares_relabelled _ _ _ 7 1 Hfed) as Hc3.
  destruct (ObservationBuffer.reset_on_drift 7 1 store3 b) as [h' b'].
  destruct Hc3 as (Hactive & Hshared & _). by split.
Defined.

Example reset_on_drift_released3 :
  (ObservationBuffer.reset_on_drift 7 1 store3
     (ObservationBuffer.release_buffer 2 store3 fed3).2).2
  = {| ObservationBuffer.window_size := 2;
       ObservationBuffer.buffer := [3%positive];
       ObservationBuffer.active_window := [2%positive; 3%positive];
       ObservationBuffer.stable_window := [2%positive] |}.
Proof. reflexivity. Qed.

Example reset_on_drift_fed3 :
  (ObservationBuffer.reset_on_drift 7 2 store3 fed3).2
  = {| ObservationBuffer.window_size := 2;
       ObservationBuffer.buffer := [3%positive];
       ObservationBuffer.active_window := [3%positive];
       ObservationBuffer.stable_window := [] |}
  ∧ fed3
    = {| ObservationBuffer.window_size := 2;
         ObservationBuffer.buffer := [2%positive; 3%positive];
         ObservationBuffer.active_window := [2%positive; 3%positive];
         ObservationBuffer.stable_window := [1%positive] |}.
Proof. split; reflexivity. Qed.

(** ** Frame of the calls *)

Lemma add_observation_heap l t h b :
  (ObservationBuffer.add_observation l t h b).1.2 = h.
Proof. unfold ObservationBuffer.add_observation. apply release_buffer_heap. Qed.

Lemma buffer_data_heap x y ct st id w h b :
  (ObservationBuffer.buffer_data x y ct st id w h b).1.2
  = <[fresh (dom h) := Observation.init x y ct id w]> h.
Proof. unfold ObservationBuffer.buffer_data. apply add_observation_heap. Qed.

Lemma ob_reset_on_drift_heap id d h b :
  (ObservationBuffer.reset_on_drift id d h b).1
  = relabel id (pop_while h d (ObservationBuffer.buffer b))
      (relabel id (pop_while h d (ObservationBuffer.stable_window b)) h).
Proof. done. Qed.

Lemma keeps_observations_alloc (h : Heap) o :
  keeps_observations h (<[fresh (dom h) := o]> h).
Proof.
  intros l o' Hl. rewrite lookup_insert_ne; [done|].
  intros <-. apply (is_fresh (dom h)). apply elem_of_dom. eauto.
Qed.

Lemma never_marks_stable_refl h : never_marks_stable h h.
Proof. intros l o' Hl Hs. eauto. Qed.

Lemma never_marks_stable_trans h1 h2 h3 :
  never_marks_stable h1 h2 → never_marks_stable h2 h3 →
  never_marks_stable h1 h3.
Proof.
  intros H12 H23 l o3 Hl Hs.
  destruct (H23 l o3 Hl Hs) as (o2 & Hl2 & Hs2). eauto.
Qed.

Lemma never_marks_stable_alloc (h : Heap) x y ct id w :
  never_marks_stable h (<[fresh (dom h) := Observation.init x y ct id w]> h).
Proof.
  intros l o' Hl Hs. rewrite lookup_insert in Hl.
  case_decide as Heq; [|eauto]. by injection Hl as <-.
Qed.

Lemma never_marks_stable_relabel id ls h :
  never_marks_stable h (relabel id ls h).
Proof.
  intros l o' Hl Hs. pose proof (relabel_is_stable id ls h l) as Heq.
  rewrite Hl in Heq. simpl in Heq.
  destruct (h !! l) as [o|]; [|done]. injection Heq as Heq.
  exists o. split; [done|congruence].
Qed.

Lemma never_marks_stable_unstable h h' :
  never_marks_stable h h' → all_unstable h → all_unstable h'.
Proof.
  intros Hnever Hall l o' Hl.
  destruct (Observation.is_stable o') eqn:Hs; [|done].
  destruct (Hnever l o' Hl Hs) as (o & Ho & Hso).
  by rewrite (Hall l o Ho) in Hso.
Qed.

Lemma ob_exec_frame c h b :
  (ob_is_reset c = false → keeps_observations h (ob_exec c h b).1)
  ∧ never_marks_stable h (ob_exec c h b).1.
Proof.
  destruct c as [x y ct st id w|l st|st|id d]; simpl.
  - rewrite buffer_data_heap.
    split; [intros _; apply keeps_observations_alloc|].
    apply never_marks_stable_alloc.
  - rewrite add_observation_heap.
    split; [by intros _ ? ?|apply never_marks_stable_refl].
  - rewrite release_buffer_heap.
    split; [by intros _ ? ?|apply never_marks_stable_refl].
  - split; [done|]. unfold ObservationBuffer.reset_on_drift. simpl.
    eapply never_marks_stable_trans; apply never_marks_stable_relabel.
Qed.

Lemma buffer_unsupervised_heap `{FloatArith} x id ct w h s :
  (SupervisedUnsupervisedBuffer.buffer_unsupervised x id ct w h s).1.2
  = <[fresh (dom h) :=
        Observation.init x None
          (advance (SupervisedUnsupervisedBuffer.unsupervised_active_timestamp s) ct)
          id w]> h.
Proof.
  unfold SupervisedUnsupervisedBuffer.buffer_unsupervised.
  match goal with
  | |- context [ObservationBuffer.buffer_data ?a ?b ?c ?d ?e ?f ?g ?i] =>
      pose proof (buffer_data_heap a b c d e f g i) as Hheap;
      destruct (ObservationBuffer.buffer_data a b c d e f g i) as [[rel h'] b']
  end.
  simpl in *. by rewrite Hheap.
Qed.

Lemma buffer_supervised_heap `{FloatArith} x y id ct w h s :
  (SupervisedUnsupervisedBuffer.buffer_supervised x y id ct w h s).1.2
  = <[fresh (dom h) :=
        Observation.init x (Some y)
          (advance (SupervisedUnsupervisedBuffer.supervised_active_timestamp s) ct)
          id w]> h.
Proof.
  unfold SupervisedUnsupervisedBuffer.buffer_supervised.
  match goal with
  | |- context [ObservationBuffer.buffer_data ?a ?b ?c ?d ?e ?f ?g ?i] =>
      pose proof (buffer_data_heap a b c d e f g i) as Hheap;
      destruct (ObservationBuffer.buffer_data a b c d e f g i) as [[rel h'] b']
  end.
  simpl in *. by rewrite Hheap.
Qed.

Lemma collect_stable_unsupervised_heap `{FloatArith} h s :
  (SupervisedUnsupervisedBuffer.collect_stable_unsupervised h s).1.2 = h.
Proof.
  unfold SupervisedUnsupervisedBuffer.collect_stable_unsupervised.
  by rewrite release_buffer_eq.
Qed.

Lemma collect_stable_supervised_heap `{FloatArith} h s :
  (SupervisedUnsupervisedBuffer.collect_stable_supervised h s).1.2 = h.
Proof.
  unfold SupervisedUnsupervisedBuffer.collect_stable_supervised.
  by rewrite release_buffer_eq.
Qed.

Lemma su_reset_on_drift_heap `{FloatArith} id d h s :
  ∃ ls1 ls2 ls3 ls4,
    (SupervisedUnsupervisedBuffer.reset_on_drift id d h s).1
    = relabel id ls1 (relabel id ls2 (relabel id ls3 (relabel id ls4 h))).
Proof.
  unfold SupervisedUnsupervisedBuffer.reset_on_drift.
  destruct (SupervisedUnsupervisedBuffer.get_unsupervised_timestamps s)
    as [a1 s1].
  destruct (SupervisedUnsupervisedBuffer.get_supervised_timestamps _)
    as [a2 s2].
  unfold ObservationBuffer.reset_on_drift. simpl. eauto.
Qed.

Lemma su_exec_frame `{FloatArith} c h s :
  (su_is_reset c = false → keeps_observations h (su_exec c h s).1.2)
  ∧ never_marks_stable h (su_exec c h s).1.2.
Proof.
  destruct c as [x id ct w|x y id ct w| | |id d]; simpl.
  - rewrite buffer_unsupervised_heap.
    split; [intros _; apply keeps_observations_alloc|].
    apply never_marks_stable_alloc.
  - rewrite buffer_supervised_heap.
    split; [intros _; apply keeps_observations_alloc|].
    apply never_marks_stable_alloc.
  - rewrite collect_stable_unsupervised_heap.
    split; [by intros _ ? ?|apply never_marks_stable_refl].
  - rewrite collect_stable_supervised_heap.
    split; [by intros _ ? ?|apply never_marks_stable_refl].
  - split; [done|].
    destruct (su_reset_on_drift_heap id d h s) as (l1 & l2 & l3 & l4 & ->).
    repeat (eapply never_marks_stable_trans;
            [|apply never_marks_stable_relabel]).
    apply never_marks_stable_refl.
Qed.

Lemma su_run_snoc `{FloatArith} cs c h s :
  su_run (cs ++ [c]) h s
  = let st := su_run cs h s in
    let r := su_exec c st.1.2 st.2 in (st.1.1 ++ [r.1.1], r.1.2, r.2).
Proof. unfold su_run. by rewrite foldl_snoc. Qed.

Lemma su_run_never_marks_stable `{FloatArith} cs h s :
  never_marks_stable h (su_run cs h s).1.2.
Proof.
  induction cs as [|c cs IH] using rev_ind; [apply never_marks_stable_refl|].
  rewrite su_run_snoc. simpl.
  eapply never_marks_stable_trans; [exact IH|]. apply su_exec_frame.
Qed.

(** C10: releasing never changes an observation.  [release_buffer]
    leaves the store as it is; every call of [ObservationBuffer] and of
    [SupervisedUnsupervisedBuffer] other than [reset_on_drift] (which
    relabels) keeps every observation of the store with all its fields;
    and no call at all sets [is_stable], so over every sequence of calls
    observations created with [is_stable = False] keep it. *)
Theorem C10_release_keeps_observation_fields `{FloatArith} :
  (∀ t h b released h' b',
     ObservationBuffer.release_buffer t h b = (released, h', b') → h' = h)
  ∧ (∀ c h b,
       (ob_is_reset c = false → keeps_observations h (ob_exec c h b).1)
       ∧ never_marks_stable h (ob_exec c h b).1)
  ∧ (∀ c h s,
       (su_is_reset c = false → keeps_observations h (su_exec c h s).1.2)
       ∧ never_marks_stable h (su_exec c h s).1.2)
  ∧ (∀ cs h s, all_unstable h → all_unstable (su_run cs h s).1.2).
Proof.
  split; [|split; [|split]].
  - intros t h b released h' b' Hrel.
    pose proof (release_buffer_heap t h b) as Hheap.
    by rewrite Hrel in Hheap.
  - apply ob_exec_frame.
  - apply su_exec_frame.
  - intros cs h s. apply never_marks_stable_unstable.
    apply su_run_never_marks_stable.
Qed.

(** ** Release under the supervised strategy *)

Lemma supervised_threshold `{FloatArith} s :
  SupervisedUnsupervisedBuffer.release_strategy s = "supervised" →
  SupervisedUnsupervisedBuffer.get_unsupervised_timestamps s
  = (SupervisedUnsupervisedBuffer.supervised_active_timestamp s,
     float_sub (SupervisedUnsupervisedBuffer.supervised_active_timestamp s)
       (SupervisedUnsupervisedBuffer.supervised_buffer_timeout s)).
Proof.
  intros Hs. unfold SupervisedUnsupervisedBuffer.get_unsupervised_timestamps.
  by rewrite Hs.
Qed.

Lemma buffer_unsupervised_eq `{FloatArith} x id ct w h s :
  let clock :=
    advance (SupervisedUnsupervisedBuffer.unsupervised_active_timestamp s) ct in
  let s1 :=
    SupervisedUnsupervisedBuffer.set_unsupervised clock
      (SupervisedUnsupervisedBuffer.unsupervised_buffer s)
      (SupervisedUnsupervisedBuffer.stable_unsupervised s) s in
  let ts := (SupervisedUnsupervisedBuffer.get_unsupervised_timestamps s1).2 in
  let l := fresh (dom h) in
  let h1 := <[l := Observation.init x None clock id w]> h in
  let b := pushed l (SupervisedUnsupervisedBuffer.unsupervised_buffer s) in
  let r := ObservationBuffer.release_buffer ts h1 b in
  SupervisedUnsupervisedBuffer.buffer_unsupervised x id ct w h s
  = (SupervisedUnsupervisedBuffer.deque_last
       (ObservationBuffer.active_window r.2), h1,
     SupervisedUnsupervisedBuffer.set_unsupervised clock r.2
       (SupervisedUnsupervisedBuffer.stable_unsupervised s ++ r.1.1) s1).
Proof.
  intros clock s1 ts l h1 b r. subst r b.
  unfold SupervisedUnsupervisedBuffer.buffer_unsupervised,
    ObservationBuffer.buffer_data, ObservationBuffer.add_observation, pushed.
  rewrite !release_buffer_eq. reflexivity.
Qed.

Lemma buffer_supervised_eq `{FloatArith} x y id ct w h s :
  let clock :=
    advance (SupervisedUnsupervisedBuffer.supervised_active_timestamp s) ct in
  let s1 :=
    SupervisedUnsupervisedBuffer.set_supervised clock
      (SupervisedUnsupervisedBuffer.supervised_buffer s)
      (SupervisedUnsupervisedBuffer.stable_supervised s) s in
  let ts := (SupervisedUnsupervisedBuffer.get_supervised_timestamps s1).2 in
  let l := fresh (dom h) in
  let h1 := <[l := Observation.init x (Some y) clock id w]> h in
  let b := pushed l (SupervisedUnsupervisedBuffer.supervised_buffer s) in
  let r := ObservationBuffer.release_buffer ts h1 b in
  SupervisedUnsupervisedBuffer.buffer_supervised x y id ct w h s
  = (SupervisedUnsupervisedBuffer.deque_last
       (ObservationBuffer.active_window r.2), h1,
     SupervisedUnsupervisedBuffer.set_supervised clock r.2
       (SupervisedUnsupervisedBuffer.stable_supervised s ++ r.1.1) s1).
Proof.
  intros clock s1 ts l h1 b r. subst r b.
  unfold SupervisedUnsupervisedBuffer.buffer_supervised,
    ObservationBuffer.buffer_data, ObservationBuffer.add_observation, pushed.
  rewrite !release_buffer_eq. reflexivity.
Qed.

Lemma keeps_observations_seen_at h h' l :
  keeps_observations h h' → l ∈ dom h →
  l ∈ dom h' ∧ seen_at_of h' l = seen_at_of h l.
Proof.
  intros Hkeep [o Ho]%elem_of_dom. pose proof (Hkeep l o Ho) as Ho'.
  split; [apply elem_of_dom; eauto|].
  unfold seen_at_of. by rewrite !lookup_total_alt, Ho, Ho'.
Qed.

Lemma keep_remaining_elem n (q : list loc) l :
  l ∈ SupervisedUnsupervisedBuffer.keep_remaining n q → l ∈ q.
Proof.
  unfold SupervisedUnsupervisedBuffer.keep_remaining.
  destruct (0 <? n)%Z; [|by intros ?%elem_of_nil].
  intros Hl. by eapply elem_of_suffix; [|apply lastn_suffix].
Qed.

Lemma su_reset_on_drift_unsupervised `{FloatArith} id d h s :
  let r := SupervisedUnsupervisedBuffer.reset_on_drift id d h s in
  SupervisedUnsupervisedBuffer.release_strategy r.2
  = SupervisedUnsupervisedBuffer.release_strategy s
  ∧ SupervisedUnsupervisedBuffer.supervised_buffer_timeout r.2
    = SupervisedUnsupervisedBuffer.supervised_buffer_timeout s
  ∧ SupervisedUnsupervisedBuffer.supervised_active_timestamp r.2
    = SupervisedUnsupervisedBuffer.supervised_active_timestamp s
  ∧ (∀ l, l ∈ SupervisedUnsupervisedBuffer.stable_unsupervised r.2 →
          l ∈ SupervisedUnsupervisedBuffer.stable_unsupervised s)
  ∧ (∀ l, l ∈ ObservationBuffer.buffer
                (SupervisedUnsupervisedBuffer.unsupervised_buffer r.2) →
          l ∈ ObservationBuffer.buffer
                (SupervisedUnsupervisedBuffer.unsupervised_buffer s)).
Proof.
  unfold SupervisedUnsupervisedBuffer.reset_on_drift.
  destruct (SupervisedUnsupervisedBuffer.get_unsupervised_timestamps s)
    as [a1 s1].
  destruct (SupervisedUnsupervisedBuffer.get_supervised_timestamps _)
    as [a2 s2].
  unfold ObservationBuffer.reset_on_drift. simpl.
  repeat split; try done.
  - intros l. apply keep_remaining_elem.
  - intros l Hl. eapply elem_of_suffix; [exact Hl | apply pop_while_suffix].
Qed.

Lemma su_exec_settings `{FloatArith} c h s :
  let r := su_exec c h s in
  SupervisedUnsupervisedBuffer.release_strategy r.2
  = SupervisedUnsupervisedBuffer.release_strategy s
  ∧ SupervisedUnsupervisedBuffer.supervised_buffer_timeout r.2
    = SupervisedUnsupervisedBuffer.supervised_buffer_timeout s
  ∧ SupervisedUnsupervisedBuffer.unsupervised_buffer_timeout r.2
    = SupervisedUnsupervisedBuffer.unsupervised_buffer_timeout s.
Proof.
  destruct c as [x id ct w|x y id ct w| | |id d]; simpl.
  - by rewrite buffer_unsupervised_eq.
  - by rewrite buffer_supervised_eq.
  - unfold SupervisedUnsupervisedBuffer.collect_stable_unsupervised.
    by rewrite release_buffer_eq.
  - unfold SupervisedUnsupervisedBuffer.collect_stable_supervised.
    by rewrite release_buffer_eq.
  - unfold SupervisedUnsupervisedBuffer.reset_on_drift.
    destruct (SupervisedUnsupervisedBuffer.get_unsupervised_timestamps s)
      as [a1 s1].
    destruct (SupervisedUnsupervisedBuffer.get_supervised_timestamps _)
      as [a2 s2].
    done.
Qed.

Lemma su_run_settings `{FloatArith} cs h s :
  let r := su_run cs h s in
  SupervisedUnsupervisedBuffer.release_strategy r.2
  = SupervisedUnsupervisedBuffer.release_strategy s
  ∧ SupervisedUnsupervisedBuffer.supervised_buffer_timeout r.2
    = SupervisedUnsupervisedBuffer.supervised_buffer_timeout s
  ∧ SupervisedUnsupervisedBuffer.unsupervised_buffer_timeout r.2
    = SupervisedUnsupervisedBuffer.unsupervised_buffer_timeout s.
Proof.
  induction cs as [|c cs IH] using rev_ind; [done|].
  rewrite su_run_snoc. cbv zeta in *. cbn [fst snd].
  destruct (su_exec_settings c (su_run cs h s).1.2 (su_run cs h s).2)
    as (-> & -> & ->).
  exact IH.
Qed.

(** One call under the "supervised" strategy: whatever it adds to the
    released unsupervised observations is no newer than the supervised
    clock after the call less the supervised timeout. *)
Lemma su_exec_supervised_release `{FloatArith} c h s l :
  SupervisedUnsupervisedBuffer.release_strategy s = "supervised" →
  let r := su_exec c h s in
  l ∈ SupervisedUnsupervisedBuffer.stable_unsupervised r.2
      ++ collected_unsupervised r.1.1 →
  l ∈ SupervisedUnsupervisedBuffer.stable_unsupervised s
  ∨ (seen_at_of r.1.2 l
     <= float_sub (SupervisedUnsupervisedBuffer.supervised_active_timestamp r.2)
          (SupervisedUnsupervisedBuffer.supervised_buffer_timeout s))%Q.
Proof.
  intros Hs.
  assert (∀ (h1 : Heap) t q, l ∈ take_while h1 t q → (seen_at_of h1 l <= t)%Q)
    as Hle.
  { intros h1 t q Hl. pose proof (take_while_le h1 t q) as Hall.
    rewrite Forall_forall in Hall. by apply Hall. }
  destruct c as [x id ct w|x y id ct w| | |id d]; simpl.
  - rewrite buffer_unsupervised_eq. cbv zeta.
    rewrite supervised_threshold by done. rewrite release_buffer_eq.
    cbn [fst snd collected_unsupervised]. rewrite app_nil_r.
    intros [Hl|Hl]%elem_of_app; [by left|]. right. by eapply Hle.
  - rewrite buffer_supervised_eq. cbv zeta. rewrite release_buffer_eq.
    cbn [fst snd collected_unsupervised]. rewrite app_nil_r. by left.
  - unfold SupervisedUnsupervisedBuffer.collect_stable_unsupervised.
    rewrite supervised_threshold by done. rewrite release_buffer_eq.
    cbn [fst snd collected_unsupervised]. simpl.
    intros [Hl|Hl]%elem_of_app; [by left|]. right. by eapply Hle.
  - unfold SupervisedUnsupervisedBuffer.collect_stable_supervised.
    rewrite release_buffer_eq.
    cbn [fst snd collected_unsupervised]. rewrite app_nil_r. by left.
  - destruct (su_reset_on_drift_unsupervised id d h s)
      as (_ & _ & _ & Hstable & _).
    rewrite app_nil_r. intros Hl. left. by apply Hstable.
Qed.

Section C4_binary64.
#[local] Existing Instance binary64_arith.

(** C4, as stated, fails: the release does not wait for the supervised
    clock to pass [t + supervised_buffer_timeout].  With a timeout of 0
    and the supervised clock at 5, the unsupervised observation stamped
    5 is released at once. *)
Lemma C4_counterexample :
  let s0 := SupervisedUnsupervisedBuffer.init 2 0 0 "supervised" in
  let r := su_run [Buffer_supervised ∅ (TInt 1) 0 5 1;
                   Buffer_unsupervised ∅ 0 5 1] ∅ s0 in
  SupervisedUnsupervisedBuffer.stable_unsupervised r.2 = [2%positive]
  ∧ seen_at_of r.1.2 2%positive = 5%Q
  ∧ SupervisedUnsupervisedBuffer.supervised_buffer_timeout r.2 = 0%Q
  ∧ SupervisedUnsupervisedBuffer.supervised_active_timestamp r.2 = 5%Q
  ∧ ¬ ((seen_at_of r.1.2 2%positive
         + SupervisedUnsupervisedBuffer.supervised_buffer_timeout r.2)
        < SupervisedUnsupervisedBuffer.supervised_active_timestamp r.2)%Q.
Proof.
  vm_compute. repeat (split; [reflexivity|]). discriminate.
Qed.

End C4_binary64.

(** C4 (amended): under [release_strategy = "supervised"], from a new
    buffer and after every sequence of calls, the threshold of the
    unsupervised track is the supervised clock less
    [supervised_buffer_timeout], in float arithmetic, and a call
    releases an unsupervised observation (puts it into
    [stable_unsupervised] or into a [collect_stable_unsupervised]
    result when it was not in [stable_unsupervised] before) only if its
    timestamp is at most that threshold, taken after the call has
    moved its clock; the bound is reached at equality, and the
    unsupervised clock has no part in it. *)
Theorem C4_supervised_clock_gates_release `{FloatArith} (ws : nat) (ut st : Q)
    (cs : list su_call) (c : su_call) (h0 : Heap) (l : loc) :
  let s0 := SupervisedUnsupervisedBuffer.init ws ut st "supervised" in
  let r0 := su_run cs h0 s0 in
  let r := su_exec c r0.1.2 r0.2 in
  let clock := SupervisedUnsupervisedBuffer.supervised_active_timestamp r.2 in
  SupervisedUnsupervisedBuffer.get_unsupervised_timestamps r.2
  = (clock, float_sub clock st)
  ∧ (l ∈ SupervisedUnsupervisedBuffer.stable_unsupervised r.2
         ++ collected_unsupervised r.1.1 →
     l ∈ SupervisedUnsupervisedBuffer.stable_unsupervised r0.2
     ∨ (seen_at_of r.1.2 l <= float_sub clock st)%Q).
Proof.
  intros s0 r0 r clock.
  destruct (su_run_settings cs h0 s0) as (Hstrategy & Htimeout & _).
  fold r0 in Hstrategy, Htimeout.
  destruct (su_exec_settings c r0.1.2 r0.2) as (Hstrategy' & Htimeout' & _).
  fold r in Hstrategy', Htimeout'.
  rewrite Hstrategy in Hstrategy'. rewrite Htimeout in Htimeout'.
  split.
  - rewrite supervised_threshold by done. by rewrite Htimeout'.
  - intros Hl.
    destruct (su_exec_supervised_release c r0.1.2 r0.2 l Hstrategy Hl)
      as [Hold|Hnew]; [by left|].
    right. by rewrite Htimeout in Hnew.
Qed.

Section C4_rounded_threshold.
#[local] Existing Instance binary64_arith.

Lemma C4_supervised_clock_gates_release_witness :
  let s0 :=
    SupervisedUnsupervisedBuffer.init 2 0 (double (6 # 10)) "supervised" in
  let r0 := su_run [Buffer_unsupervised ∅ 0 (double (11 # 10)) 1;
                    Buffer_supervised ∅ (TInt 1) 0 (double (17 # 10)) 1]
              ∅ s0 in
  let r := su_exec Collect_stable_unsupervised r0.1.2 r0.2 in
  1%positive ∈ collected_unsupervised r.1.1
  ∧ (1%positive ∉ SupervisedUnsupervisedBuffer.stable_unsupervised r0.2)
  ∧ (seen_at_of r.1.2 1%positive
     <= float_sub (SupervisedUnsupervisedBuffer.supervised_active_timestamp r.2)
          (double (6 # 10)))%Q.
Proof.
  intros s0 r0 r.
  assert (1%positive ∈ collected_unsupervised r.1.1) as Hl
    by (vm_compute; repeat constructor).
  assert (1%positive ∉ SupervisedUnsupervisedBuffer.stable_unsupervised r0.2)
    as Hnew by (vm_compute; apply not_elem_of_nil).
  split; [exact Hl|]. split; [exact Hnew|].
  destruct (C4_supervised_clock_gates_release 2 0 (double (6 # 10))
              [Buffer_unsupervised ∅ 0 (double (11 # 10)) 1;
               Buffer_supervised ∅ (TInt 1) 0 (double (17 # 10)) 1]
              Collect_stable_unsupervised ∅ 1%positive) as [_ Hrelease].
  destruct Hrelease as [Hold|Hle]; [| |exact Hle].
  - apply elem_of_app. by right.
  - by destruct Hnew.
Defined.

(** In double precision [1.7 - 0.6] is the double [1.1], so the
    observation stamped [1.1] is released at the supervised clock
    [1.7], although [1.1 + 0.6] is above [1.7]; and [0.5 - 0.1] is the
    double [0.4], so an observation stamped [0.4] is released at the
    clock [0.5]. *)
Example release_at_rounded_threshold :
  float_sub (double (17 # 10)) (double (6 # 10)) = double (11 # 10)
  ∧ (double (17 # 10) < float_add (double (11 # 10)) (double (6 # 10)))%Q
  ∧ float_sub (double (5 # 10)) (double (1 # 10)) = double (4 # 10)
  ∧ (su_run [Buffer_supervised ∅ (TInt 1) 0 (double (5 # 10)) 1;
             Buffer_unsupervised ∅ 0 (double (4 # 10)) 1;
             Collect_stable_unsupervised]
       ∅ (SupervisedUnsupervisedBuffer.init 2 0 (double (1 # 10))
            "supervised")).1.1
    = [Buffered (Ok 1%positive); Buffered (Ok 2%positive);
       Collected_unsupervised [2%positive]].
Proof. vm_compute. repeat split; reflexivity. Qed.

Example su_run_supervised :
  (su_run [Buffer_unsupervised ∅ 0 (-1) 1;
           Buffer_unsupervised ∅ 0 (-1) 1;
           Buffer_unsupervised ∅ 0 (-1) 1;
           Collect_stable_unsupervised]
     ∅ (SupervisedUnsupervisedBuffer.init 2 0 1 "supervised")).1.1
  = [Buffered (Ok 1%positive); Buffered (Ok 2%positive);
     Buffered (Ok 3%positive); Collected_unsupervised []].
Proof. reflexivity. Qed.

End C4_rounded_threshold.

Lemma store3_unstable : all_unstable store3.
Proof.
  intros l o. unfold store3. rewrite !lookup_insert.
  repeat case_decide; by intros [= <-].
Defined.

Section release_keeps_fields_binary64.
#[local] Existing Instance binary64_arith.

Lemma C10_release_keeps_observation_fields_witness :
  all_unstable store3
  ∧ all_unstable
      (su_run [Buffer_unsupervised ∅ 0 (-1) 1; Collect_stable_unsupervised;
               Reset_on_drift 4 (-1)]
         store3 (SupervisedUnsupervisedBuffer.init 2 0 0 "independent")).1.2
  ∧ keeps_observations store3
      (ob_exec (Ob_release_buffer 2) store3 fed3).1.
Proof.
  destruct C10_release_keeps_observation_fields as (_ & Hob & _ & Hrun).
  split; [exact store3_unstable|]. split.
  - apply Hrun. exact store3_unstable.
  - by apply Hob.
Defined.

End release_keeps_fields_binary64.

(** * Further properties of the buffers *)

(** ** Windows *)

(** After any sequence of add_observation and release_buffer calls on a
    new buffer, in whatever order of timestamps: the observations
    returned so far followed by [buffer] are the inserted observations
    in insertion order, [active_window] holds exactly the last
    [window_size] inserted observations and [stable_window] exactly the
    last [window_size] returned ones. *)
Theorem windows_hold_latest (ws : nat) (h : Heap) (cs : list feed_call) :
  let '(outs, b) := feed_run h cs (ObservationBuffer.init ws) in
  outs ++ ObservationBuffer.buffer b = inserted cs
  ∧ ObservationBuffer.active_window b = lastn ws (inserted cs)
  ∧ ObservationBuffer.stable_window b = lastn ws outs
  ∧ ObservationBuffer.window_size b = ws.
Proof.
  pose proof (feed_run_shape h ws cs) as Hshape.
  destruct (feed_run h cs (ObservationBuffer.init ws)) as [outs b].
  simpl in Hshape. tauto.
Qed.

Lemma deque_append_length n (d : list loc) l :
  (length d <= n)%nat → (length (deque_append n d l) <= n)%nat.
Proof.
  intros Hd. rewrite deque_append_trim by done.
  unfold lastn. rewrite length_drop. lia.
Qed.

Lemma foldl_deque_append_length n (d r : list loc) :
  (length d <= n)%nat → (length (foldl (deque_append n) d r) <= n)%nat.
Proof.
  revert d. induction r as [|l r IH]; intros d Hd; [done|].
  simpl. apply IH. by apply deque_append_length.
Qed.

Lemma pop_while_length h t q : (length (pop_while h t q) <= length q)%nat.
Proof. apply suffix_length, pop_while_suffix. Qed.

Lemma release_buffer_bounded t h b :
  bounded_windows b →
  bounded_windows (ObservationBuffer.release_buffer t h b).2
  ∧ ObservationBuffer.window_size (ObservationBuffer.release_buffer t h b).2
    = ObservationBuffer.window_size b.
Proof.
  intros [Hactive Hstable]. rewrite release_buffer_eq.
  split; [|done]. split; simpl; [done|].
  by apply foldl_deque_append_length.
Qed.

Lemma pushed_bounded l b : bounded_windows b → bounded_windows (pushed l b).
Proof.
  intros [Hactive Hstable]. split; simpl; [|done].
  by apply deque_append_length.
Qed.

Lemma ob_exec_bounded c h b :
  bounded_windows b →
  bounded_windows (ob_exec c h b).2
  ∧ ObservationBuffer.window_size (ob_exec c h b).2
    = ObservationBuffer.window_size b.
Proof.
  intros Hb. destruct c as [x y ct st id w|l st|st|id d]; simpl.
  - apply (release_buffer_bounded st _ (pushed _ b)). by apply pushed_bounded.
  - apply (release_buffer_bounded st _ (pushed _ b)). by apply pushed_bounded.
  - by apply release_buffer_bounded.
  - destruct Hb as [Hactive Hstable]. split; [|done]. split; simpl.
    + etrans; [apply pop_while_length|done].
    + etrans; [apply pop_while_length|done].
Qed.

Lemma ob_run_snoc cs c h b :
  ob_run (cs ++ [c]) h b = ob_exec c (ob_run cs h b).1 (ob_run cs h b).2.
Proof. unfold ob_run. by rewrite foldl_snoc. Qed.

(** Bounded windows: after any sequence of buffer_data,
    add_observation, release_buffer and reset_on_drift calls on a new
    buffer, [active_window] and [stable_window] hold at most
    [window_size] observations each, and [window_size] is the one the
    buffer was built with. *)
Theorem windows_bounded (ws : nat) (cs : list ob_call) (h : Heap) :
  let b := (ob_run cs h (ObservationBuffer.init ws)).2 in
  ObservationBuffer.window_size b = ws
  ∧ (length (ObservationBuffer.active_window b) <= ws)%nat
  ∧ (length (ObservationBuffer.stable_window b) <= ws)%nat.
Proof.
  induction cs as [|c cs IH] using rev_ind.
  - simpl. repeat split; lia.
  - rewrite ob_run_snoc. simpl in *. destruct IH as (Hws & Hactive & Hstable).
    destruct (ob_exec_bounded c (ob_run cs h (ObservationBuffer.init ws)).1
                (ob_run cs h (ObservationBuffer.init ws)).2) as [[Ha Hs] Hw].
    { split; by rewrite Hws. }
    rewrite Hw, Hws in Ha, Hs. rewrite Hw. done.
Qed.

(** ** Release *)

Lemma take_while_pop_while h t q : take_while h t (pop_while h t q) = [].
Proof.
  induction q as [|l q IH]; [done|]. simpl.
  destruct (Qle_bool _ t) eqn:Hle; [done|]. simpl. by rewrite Hle.
Qed.

Lemma pop_while_pop_while h t q :
  pop_while h t (pop_while h t q) = pop_while h t q.
Proof.
  induction q as [|l q IH]; [done|]. simpl.
  destruct (Qle_bool _ t) eqn:Hle; [done|]. simpl. by rewrite Hle.
Qed.

Lemma Qle_bool_mono a t1 t2 :
  (t1 <= t2)%Q → Qle_bool a t1 = true → Qle_bool a t2 = true.
Proof. rewrite !Qle_bool_iff. intros. lra. Qed.

Lemma take_while_split h t1 t2 q :
  (t1 <= t2)%Q →
  take_while h t2 q = take_while h t1 q ++ take_while h t2 (pop_while h t1 q).
Proof.
  intros Ht. induction q as [|l q IH]; [done|]. simpl.
  destruct (Qle_bool _ t1) eqn:Hle1.
  - rewrite (Qle_bool_mono _ _ _ Ht Hle1). simpl. by rewrite IH.
  - done.
Qed.

Lemma pop_while_split h t1 t2 q :
  (t1 <= t2)%Q → pop_while h t2 (pop_while h t1 q) = pop_while h t2 q.
Proof.
  intros Ht. induction q as [|l q IH]; [done|]. simpl.
  destruct (Qle_bool _ t1) eqn:Hle1.
  - by rewrite (Qle_bool_mono _ _ _ Ht Hle1).
  - done.
Qed.

(** [release_buffer] is idempotent: a second call with the same
    threshold, with nothing added in between, returns nothing and
    leaves the store and the buffer as they are. *)
Theorem release_buffer_idempotent (t : Q) (h : Heap) (b : ObservationBuffer) :
  let '(released, h', b') := ObservationBuffer.release_buffer t h b in
  ObservationBuffer.release_buffer t h' b' = ([], h', b').
Proof.
  rewrite release_buffer_eq, release_buffer_eq. simpl.
  by rewrite take_while_pop_while, pop_while_pop_while.
Qed.

(** Releasing in two steps is releasing in one: with [t1 <= t2],
    [release_buffer t1] followed by [release_buffer t2] returns, taken
    together and in order, what [release_buffer t2] alone returns, and
    leaves the same buffer. *)
Theorem release_buffer_in_steps (t1 t2 : Q) (h : Heap) (b : ObservationBuffer) :
  (t1 <= t2)%Q →
  let r1 := ObservationBuffer.release_buffer t1 h b in
  let r2 := ObservationBuffer.release_buffer t2 r1.1.2 r1.2 in
  r1.1.1 ++ r2.1.1 = (ObservationBuffer.release_buffer t2 h b).1.1
  ∧ r2.2 = (ObservationBuffer.release_buffer t2 h b).2
  ∧ r2.1.2 = h.
Proof.
  intros Ht. simpl. rewrite !release_buffer_eq. simpl.
  rewrite (pop_while_split _ _ _ _ Ht).
  rewrite (take_while_split h t1 t2 (ObservationBuffer.buffer b) Ht).
  by rewrite foldl_app.
Qed.

Lemma release_buffer_in_steps_witness :
  let r1 := ObservationBuffer.release_buffer 1 store3 fed3 in
  let r2 := ObservationBuffer.release_buffer 2 r1.1.2 r1.2 in
  r1.1.1 ++ r2.1.1 = (ObservationBuffer.release_buffer 2 store3 fed3).1.1
  ∧ r2.2 = (ObservationBuffer.release_buffer 2 store3 fed3).2.
Proof.
  intros r1 r2.
  destruct (release_buffer_in_steps 1 2 store3 fed3) as (Hout & Hbuf & _).
  - vm_compute. discriminate.
  - by split.
Defined.

(** Fed in order, a buffer releases in order: what [release_buffer]
    returns is in non-decreasing [seen_at] order, so are [buffer] and
    the two windows after the call, and nothing returned is newer than
    anything left in [buffer]. *)
Theorem released_in_order (H : list loc) (h : Heap) (b : ObservationBuffer)
    (t : Q) :
  fed_in_order H h b →
  let '(released, h', b') := ObservationBuffer.release_buffer t h b in
  in_order h released
  ∧ in_order h (ObservationBuffer.buffer b')
  ∧ in_order h (ObservationBuffer.active_window b')
  ∧ in_order h (ObservationBuffer.stable_window b')
  ∧ ∀ l l', l ∈ released → l' ∈ ObservationBuffer.buffer b' →
            (seen_at_of h l < seen_at_of h l')%Q.
Proof.
  intros Hfed.
  pose proof (fed_in_order_shape _ _ _ Hfed) as Hshape.
  pose proof (fed_in_order_shape _ _ _ (fed_release_buffer _ _ _ t Hfed))
    as Hshape'.
  destruct (fed_shape_in_order _ _ _ Hshape) as (Hbuf & _ & _).
  destruct (fed_shape_in_order _ _ _ Hshape') as (Hbuf' & Hactive' & Hstable').
  rewrite release_buffer_eq in *. simpl in *.
  split; [|repeat split; try done].
  - rewrite <- (take_pop_while h t (ObservationBuffer.buffer b)) in Hbuf.
    by apply StronglySorted_app_1_l in Hbuf.
  - intros l l' Hl Hl'.
    pose proof (take_while_le h t (ObservationBuffer.buffer b)) as Hle.
    pose proof (pop_while_above h t (ObservationBuffer.buffer b) Hbuf) as Hgt.
    rewrite Forall_forall in Hle, Hgt.
    specialize (Hle l Hl). specialize (Hgt l' Hl'). lra.
Qed.

Lemma released_in_order_witness :
  fed_in_order [1; 2; 3]%positive store3 fed3
  ∧ let '(released, h', b') := ObservationBuffer.release_buffer 2 store3 fed3 in
    in_order store3 released.
Proof.
  split; [exact fed3_in_order|].
  pose proof (released_in_order _ _ _ 2 fed3_in_order) as Hord.
  destruct (ObservationBuffer.release_buffer 2 store3 fed3) as [[released h'] b'].
  by destruct Hord as (Hreleased & _).
Defined.

(** In a buffer fed in order the stable window is never ahead of the
    buffer: nothing in [stable_window] is newer than anything still in
    [buffer]. *)
Theorem stable_window_behind_buffer (H : list loc) (h : Heap)
    (b : ObservationBuffer) (l l' : loc) :
  fed_in_order H h b →
  l ∈ ObservationBuffer.stable_window b →
  l' ∈ ObservationBuffer.buffer b →
  (seen_at_of h l <= seen_at_of h l')%Q.
Proof.
  intros (dropped & kept & HH & Hstable & _ & Hsorted & _)%fed_in_order_shape
    Hl Hl'.
  rewrite HH in Hsorted. apply StronglySorted_app_1_r in Hsorted.
  eapply (StronglySorted_app_1_elem_of _ _ _ _ _ Hsorted); [|done].
  rewrite Hstable in Hl. by eapply elem_of_suffix; [|apply lastn_suffix].
Qed.

Lemma stable_window_behind_buffer_witness :
  (seen_at_of store3 1%positive <= seen_at_of store3 3%positive)%Q.
Proof.
  apply (stable_window_behind_buffer [1; 2; 3]%positive store3 fed3).
  - exact fed3_in_order.
  - vm_compute. repeat constructor.
  - vm_compute. repeat constructor.
Defined.

(** ** Buffering calls *)

Lemma deque_append_last n (d : list loc) l :
  n ≠ 0%nat → last (deque_append n d l) = Some l.
Proof.
  intros Hn. unfold deque_append. rewrite length_app. simpl.
  destruct (Nat.ltb_spec n (length d + 1)) as [Hlt|Hge].
  - destruct d as [|a d]; simpl in *; [lia|]. apply last_snoc.
  - apply last_snoc.
Qed.

Lemma deque_append_zero (l : loc) : deque_append 0 [] l = [].
Proof. done. Qed.

Lemma release_buffer_active_window t h b :
  ObservationBuffer.active_window (ObservationBuffer.release_buffer t h b).2
  = ObservationBuffer.active_window b.
Proof. by rewrite release_buffer_eq. Qed.

Lemma deque_last_pushed l b :
  ObservationBuffer.window_size b ≠ 0%nat →
  SupervisedUnsupervisedBuffer.deque_last
    (ObservationBuffer.active_window (pushed l b)) = Ok l.
Proof.
  intros Hws. unfold SupervisedUnsupervisedBuffer.deque_last, pushed.
  cbn [ObservationBuffer.active_window]. by rewrite deque_append_last.
Qed.

Lemma deque_last_pushed_zero l b :
  ObservationBuffer.window_size b = 0%nat →
  ObservationBuffer.active_window b = [] →
  ∃ msg, SupervisedUnsupervisedBuffer.deque_last
           (ObservationBuffer.active_window (pushed l b))
         = Raise (IndexError msg).
Proof.
  intros Hws Hactive. unfold SupervisedUnsupervisedBuffer.deque_last, pushed.
  cbn [ObservationBuffer.active_window].
  rewrite Hws, Hactive, deque_append_zero. simpl. eauto.
Qed.

Lemma fresh_not_allocated (h : Heap) : h !! fresh (dom h) = None.
Proof. apply not_elem_of_dom, is_fresh. Qed.

(** With a window size other than 0, [buffer_unsupervised] and
    [buffer_supervised] return the observation they create: a new
    object of the store (no existing reference is reused), stamped with
    its own track's clock after the call whatever the release strategy,
    with [y = None] on the unsupervised track, no predictions, no
    relevance and [is_stable = False]. *)
Theorem buffer_calls_return_new_observation `{FloatArith} (x : gmap string Q)
    (y : ClfTarget) (id : Z) (ct w : Q) (h : Heap)
    (s : SupervisedUnsupervisedBuffer) :
  (ObservationBuffer.window_size
     (SupervisedUnsupervisedBuffer.unsupervised_buffer s) ≠ 0%nat →
   let r := SupervisedUnsupervisedBuffer.buffer_unsupervised x id ct w h s in
   r.1.1 = Ok (fresh (dom h))
   ∧ h !! fresh (dom h) = None
   ∧ r.1.2 !! fresh (dom h)
     = Some (Observation.init x None
               (SupervisedUnsupervisedBuffer.unsupervised_active_timestamp r.2)
               id w))
  ∧ (ObservationBuffer.window_size
       (SupervisedUnsupervisedBuffer.supervised_buffer s) ≠ 0%nat →
     let r := SupervisedUnsupervisedBuffer.buffer_supervised x y id ct w h s in
     r.1.1 = Ok (fresh (dom h))
     ∧ h !! fresh (dom h) = None
     ∧ r.1.2 !! fresh (dom h)
       = Some (Observation.init x (Some y)
                 (SupervisedUnsupervisedBuffer.supervised_active_timestamp r.2)
                 id w)).
Proof.
  split; intros Hws.
  - rewrite buffer_unsupervised_eq. cbv zeta. cbn [fst snd].
    rewrite release_buffer_active_window, deque_last_pushed by done.
    split; [done|]. split; [apply fresh_not_allocated|].
    by rewrite lookup_insert_eq.
  - rewrite buffer_supervised_eq. cbv zeta. cbn [fst snd].
    rewrite release_buffer_active_window, deque_last_pushed by done.
    split; [done|]. split; [apply fresh_not_allocated|].
    by rewrite lookup_insert_eq.
Qed.

Section new_observation_binary64.
#[local] Existing Instance binary64_arith.

Lemma buffer_calls_return_new_observation_witness :
  let s := SupervisedUnsupervisedBuffer.init 2 0 1 "supervised" in
  (SupervisedUnsupervisedBuffer.buffer_unsupervised ∅ 0 (-1) 1 store3 s).1.1
  = Ok (fresh (dom store3))
  ∧ (SupervisedUnsupervisedBuffer.buffer_supervised
       ∅ (TInt 1) 0 5 1 store3 s).1.1
    = Ok (fresh (dom store3)).
Proof.
  intros s.
  destruct (buffer_calls_return_new_observation ∅ (TInt 1) 0 (-1) 1 store3 s)
    as [Hu _].
  destruct (buffer_calls_return_new_observation ∅ (TInt 1) 0 5 1 store3 s)
    as [_ Hs].
  split.
  - apply Hu. simpl. discriminate.
  - apply Hs. simpl. discriminate.
Defined.

End new_observation_binary64.

(** With window size 0 (and so an empty active window) the buffering
    calls raise [IndexError] when they read back [active_window[-1]],
    after the clock has moved and the new observation has been stored
    and put into the buffer or released. *)
Theorem buffer_calls_raise_without_window `{FloatArith} (x : gmap string Q)
    (y : ClfTarget) (id : Z) (ct w : Q) (h : Heap)
    (s : SupervisedUnsupervisedBuffer) :
  ((ObservationBuffer.window_size
      (SupervisedUnsupervisedBuffer.unsupervised_buffer s) = 0%nat
    ∧ ObservationBuffer.active_window
        (SupervisedUnsupervisedBuffer.unsupervised_buffer s) = []) →
   let r := SupervisedUnsupervisedBuffer.buffer_unsupervised x id ct w h s in
   (∃ msg, r.1.1 = Raise (IndexError msg))
   ∧ SupervisedUnsupervisedBuffer.unsupervised_active_timestamp r.2
     = advance (SupervisedUnsupervisedBuffer.unsupervised_active_timestamp s) ct
   ∧ is_Some (r.1.2 !! fresh (dom h))
   ∧ (fresh (dom h)
        ∈ ObservationBuffer.buffer
            (SupervisedUnsupervisedBuffer.unsupervised_buffer r.2)
      ∨ fresh (dom h) ∈ SupervisedUnsupervisedBuffer.stable_unsupervised r.2))
  ∧ ((ObservationBuffer.window_size
        (SupervisedUnsupervisedBuffer.supervised_buffer s) = 0%nat
      ∧ ObservationBuffer.active_window
          (SupervisedUnsupervisedBuffer.supervised_buffer s) = []) →
     let r := SupervisedUnsupervisedBuffer.buffer_supervised x y id ct w h s in
     (∃ msg, r.1.1 = Raise (IndexError msg))
     ∧ SupervisedUnsupervisedBuffer.supervised_active_timestamp r.2
       = advance (SupervisedUnsupervisedBuffer.supervised_active_timestamp s) ct
     ∧ is_Some (r.1.2 !! fresh (dom h))
     ∧ (fresh (dom h)
          ∈ ObservationBuffer.buffer
              (SupervisedUnsupervisedBuffer.supervised_buffer r.2)
        ∨ fresh (dom h) ∈ SupervisedUnsupervisedBuffer.stable_supervised r.2)).
Proof.
  assert (∀ (h1 : Heap) t q (l : loc),
            l ∈ pop_while h1 t (q ++ [l]) ∨ l ∈ take_while h1 t (q ++ [l]))
    as Hwhere.
  { intros h1 t q l.
    assert (l ∈ take_while h1 t (q ++ [l]) ++ pop_while h1 t (q ++ [l])) as Hl.
    { rewrite take_pop_while. apply elem_of_app. right. by left. }
    apply elem_of_app in Hl. tauto. }
  split; intros [Hws Hactive].
  - rewrite buffer_unsupervised_eq. cbv zeta. cbn [fst snd].
    rewrite release_buffer_active_window.
    split; [by apply deque_last_pushed_zero|].
    rewrite release_buffer_eq. simpl.
    split; [done|]. split; [by rewrite lookup_insert_eq|].
    destruct (Hwhere
      (<[fresh (dom h) := Observation.init x None
           (advance
              (SupervisedUnsupervisedBuffer.unsupervised_active_timestamp s) ct)
           id w]> h)
      (SupervisedUnsupervisedBuffer.get_unsupervised_timestamps
         (SupervisedUnsupervisedBuffer.set_unsupervised
            (advance
               (SupervisedUnsupervisedBuffer.unsupervised_active_timestamp s) ct)
            (SupervisedUnsupervisedBuffer.unsupervised_buffer s)
            (SupervisedUnsupervisedBuffer.stable_unsupervised s) s)).2
      (ObservationBuffer.buffer
         (SupervisedUnsupervisedBuffer.unsupervised_buffer s))
      (fresh (dom h))) as [Hl|Hl]; [by left|].
    right. apply elem_of_app. by right.
  - rewrite buffer_supervised_eq. cbv zeta. cbn [fst snd].
    rewrite release_buffer_active_window.
    split; [by apply deque_last_pushed_zero|].
    rewrite release_buffer_eq. simpl.
    split; [done|]. split; [by rewrite lookup_insert_eq|].
    destruct (Hwhere
      (<[fresh (dom h) := Observation.init x (Some y)
           (advance
              (SupervisedUnsupervisedBuffer.supervised_active_timestamp s) ct)
           id w]> h)
      (SupervisedUnsupervisedBuffer.get_supervised_timestamps
         (SupervisedUnsupervisedBuffer.set_supervised
            (advance
               (SupervisedUnsupervisedBuffer.supervised_active_timestamp s) ct)
            (SupervisedUnsupervisedBuffer.supervised_buffer s)
            (SupervisedUnsupervisedBuffer.stable_supervised s) s)).2
      (ObservationBuffer.buffer
         (SupervisedUnsupervisedBuffer.supervised_buffer s))
      (fresh (dom h))) as [Hl|Hl]; [by left|].
    right. apply elem_of_app. by right.
Qed.

Section without_window_binary64.
#[local] Existing Instance binary64_arith.

Lemma buffer_calls_raise_without_window_witness :
  let s := SupervisedUnsupervisedBuffer.init 0 0 1 "independent" in
  (∃ msg, (SupervisedUnsupervisedBuffer.buffer_unsupervised
             ∅ 0 (-1) 1 ∅ s).1.1 = Raise (IndexError msg))
  ∧ (∃ msg, (SupervisedUnsupervisedBuffer.buffer_supervised
               ∅ (TInt 1) 0 (-1) 1 ∅ s).1.1 = Raise (IndexError msg)).
Proof.
  intros s.
  destruct (buffer_calls_raise_without_window ∅ (TInt 1) 0 (-1) 1 ∅ s)
    as [Hu Hs].
  split.
  - by apply Hu.
  - by apply Hs.
Defined.

End without_window_binary64.

(** ** Strategies, collection and conservation *)

(** Which clock gates which track.  Each getter returns a clock and
    the float difference of that clock and its timeout, and a collect
    call releases the longest prefix of its track's buffer that is no
    newer than this difference.  "independent" gives each track its
    own clock, "supervised" gives both the supervised one,
    "unsupervised" gives both the unsupervised one, so that both tracks
    are cut at one timestamp; any other string is accepted and crosses
    the tracks: the unsupervised track is cut by the supervised clock
    and the supervised track by the unsupervised one. *)
Theorem timestamps_by_strategy `{FloatArith} (h : Heap)
    (s : SupervisedUnsupervisedBuffer) :
  let own_u :=
    (SupervisedUnsupervisedBuffer.unsupervised_active_timestamp s,
     float_sub (SupervisedUnsupervisedBuffer.unsupervised_active_timestamp s)
       (SupervisedUnsupervisedBuffer.unsupervised_buffer_timeout s)) in
  let own_s :=
    (SupervisedUnsupervisedBuffer.supervised_active_timestamp s,
     float_sub (SupervisedUnsupervisedBuffer.supervised_active_timestamp s)
       (SupervisedUnsupervisedBuffer.supervised_buffer_timeout s)) in
  let strategy := SupervisedUnsupervisedBuffer.release_strategy s in
  let tu := SupervisedUnsupervisedBuffer.get_unsupervised_timestamps s in
  let ts := SupervisedUnsupervisedBuffer.get_supervised_timestamps s in
  (strategy = "independent" → tu = own_u ∧ ts = own_s)
  ∧ (strategy = "supervised" → tu = own_s ∧ ts = own_s)
  ∧ (strategy = "unsupervised" → tu = own_u ∧ ts = own_u)
  ∧ (strategy ∉ ["independent"; "supervised"; "unsupervised"] →
     tu = own_s ∧ ts = own_u)
  ∧ (SupervisedUnsupervisedBuffer.collect_stable_unsupervised h s).1.1
    = SupervisedUnsupervisedBuffer.stable_unsupervised s
      ++ take_while h tu.2
           (ObservationBuffer.buffer
              (SupervisedUnsupervisedBuffer.unsupervised_buffer s))
  ∧ (SupervisedUnsupervisedBuffer.collect_stable_supervised h s).1.1
    = SupervisedUnsupervisedBuffer.stable_supervised s
      ++ take_while h ts.2
           (ObservationBuffer.buffer
              (SupervisedUnsupervisedBuffer.supervised_buffer s)).
Proof.
  intros own_u own_s strategy tu ts.
  assert ((strategy = "independent" → tu = own_u ∧ ts = own_s)
          ∧ (strategy = "supervised" → tu = own_s ∧ ts = own_s)
          ∧ (strategy = "unsupervised" → tu = own_u ∧ ts = own_u)
          ∧ (strategy ∉ ["independent"; "supervised"; "unsupervised"] →
             tu = own_s ∧ ts = own_u)) as (Hi & Hs & Hu & Ho).
  { subst tu ts own_u own_s.
    unfold SupervisedUnsupervisedBuffer.get_unsupervised_timestamps,
      SupervisedUnsupervisedBuffer.get_supervised_timestamps.
    fold strategy. split; [|split; [|split]].
    - by intros ->.
    - by intros ->.
    - by intros ->.
    - intros Hother.
      rewrite !bool_decide_eq_false_2; [done| |];
        intros Hin; apply Hother;
        rewrite !elem_of_cons in Hin; rewrite !elem_of_cons; tauto. }
  split; [done|]. split; [done|]. split; [done|]. split; [done|].
  unfold SupervisedUnsupervisedBuffer.collect_stable_unsupervised,
    SupervisedUnsupervisedBuffer.collect_stable_supervised.
  by rewrite !release_buffer_eq.
Qed.

Section strategies_binary64.
#[local] Existing Instance binary64_arith.

Lemma timestamps_by_strategy_witness :
  let s := SupervisedUnsupervisedBuffer.init 2 3 5 "both" in
  SupervisedUnsupervisedBuffer.get_unsupervised_timestamps s
  = (0%Q, float_sub 0 5)
  ∧ SupervisedUnsupervisedBuffer.get_supervised_timestamps s
    = (0%Q, float_sub 0 3).
Proof.
  intros s.
  destruct (timestamps_by_strategy ∅ s) as (_ & _ & _ & Hother & _).
  apply Hother. simpl. rewrite !elem_of_cons, elem_of_nil.
  intros [?|[?|[?|[]]]]; discriminate.
Defined.

End strategies_binary64.

(** [collect_stable_unsupervised] and [collect_stable_supervised]
    return the accumulated observations followed by the newly released
    ones and empty the accumulation list; a second call right after
    returns nothing and changes nothing. *)
Theorem collect_drains `{FloatArith} (h : Heap)
    (s : SupervisedUnsupervisedBuffer) :
  let ru := SupervisedUnsupervisedBuffer.collect_stable_unsupervised h s in
  let rs := SupervisedUnsupervisedBuffer.collect_stable_supervised h s in
  (∃ released,
     ru.1.1 = SupervisedUnsupervisedBuffer.stable_unsupervised s ++ released
     ∧ ObservationBuffer.buffer
         (SupervisedUnsupervisedBuffer.unsupervised_buffer s)
       = released
         ++ ObservationBuffer.buffer
              (SupervisedUnsupervisedBuffer.unsupervised_buffer ru.2))
  ∧ SupervisedUnsupervisedBuffer.stable_unsupervised ru.2 = []
  ∧ SupervisedUnsupervisedBuffer.collect_stable_unsupervised ru.1.2 ru.2
    = ([], ru.1.2, ru.2)
  ∧ (∃ released,
       rs.1.1 = SupervisedUnsupervisedBuffer.stable_supervised s ++ released
       ∧ ObservationBuffer.buffer
           (SupervisedUnsupervisedBuffer.supervised_buffer s)
         = released
           ++ ObservationBuffer.buffer
                (SupervisedUnsupervisedBuffer.supervised_buffer rs.2))
  ∧ SupervisedUnsupervisedBuffer.stable_supervised rs.2 = []
  ∧ SupervisedUnsupervisedBuffer.collect_stable_supervised rs.1.2 rs.2
    = ([], rs.1.2, rs.2).
Proof.
  simpl.
  unfold SupervisedUnsupervisedBuffer.collect_stable_unsupervised,
    SupervisedUnsupervisedBuffer.collect_stable_supervised.
  rewrite !release_buffer_eq. simpl.
  change (SupervisedUnsupervisedBuffer.get_unsupervised_timestamps
            (SupervisedUnsupervisedBuffer.set_unsupervised _ _ _ s))
    with (SupervisedUnsupervisedBuffer.get_unsupervised_timestamps s).
  change (SupervisedUnsupervisedBuffer.get_supervised_timestamps
            (SupervisedUnsupervisedBuffer.set_supervised _ _ _ s))
    with (SupervisedUnsupervisedBuffer.get_supervised_timestamps s).
  rewrite !take_while_pop_while, !pop_while_pop_while. simpl.
  repeat split; try done.
  - eexists. split; [done|]. by rewrite take_pop_while.
  - eexists. split; [done|]. by rewrite take_pop_while.
Qed.

(** No call other than [reset_on_drift] loses, duplicates or reorders
    pending observations: on each track, what the call hands out
    followed by the accumulation list and the buffer after the call is
    the accumulation list and the buffer before it, followed by the
    observation the call created on that track, if any. *)
Theorem calls_conserve_observations `{FloatArith} (c : su_call) (h : Heap)
    (s : SupervisedUnsupervisedBuffer) :
  su_is_reset c = false →
  let r := su_exec c h s in
  collected_unsupervised r.1.1
    ++ SupervisedUnsupervisedBuffer.stable_unsupervised r.2
    ++ ObservationBuffer.buffer
         (SupervisedUnsupervisedBuffer.unsupervised_buffer r.2)
  = SupervisedUnsupervisedBuffer.stable_unsupervised s
    ++ ObservationBuffer.buffer
         (SupervisedUnsupervisedBuffer.unsupervised_buffer s)
    ++ created_unsupervised c h
  ∧ collected_supervised r.1.1
      ++ SupervisedUnsupervisedBuffer.stable_supervised r.2
      ++ ObservationBuffer.buffer
           (SupervisedUnsupervisedBuffer.supervised_buffer r.2)
    = SupervisedUnsupervisedBuffer.stable_supervised s
      ++ ObservationBuffer.buffer
           (SupervisedUnsupervisedBuffer.supervised_buffer s)
      ++ created_supervised c h.
Proof.
  intros Hc. destruct c as [x id ct w|x y id ct w| | |id d]; [| | | |done].
  - simpl. rewrite buffer_unsupervised_eq. cbv zeta.
    rewrite release_buffer_eq. simpl.
    by rewrite <- app_assoc, take_pop_while, !app_nil_r.
  - simpl. rewrite buffer_supervised_eq. cbv zeta.
    rewrite release_buffer_eq. simpl.
    by rewrite <- app_assoc, take_pop_while, !app_nil_r.
  - simpl.
    unfold SupervisedUnsupervisedBuffer.collect_stable_unsupervised.
    rewrite release_buffer_eq. simpl.
    by rewrite <- app_assoc, take_pop_while, !app_nil_r.
  - simpl.
    unfold SupervisedUnsupervisedBuffer.collect_stable_supervised.
    rewrite release_buffer_eq. simpl.
    by rewrite <- app_assoc, take_pop_while, !app_nil_r.
Qed.

Section conservation_binary64.
#[local] Existing Instance binary64_arith.

Lemma calls_conserve_observations_witness :
  let s := SupervisedUnsupervisedBuffer.init 2 0 1 "independent" in
  let r := su_exec (Buffer_unsupervised ∅ 0 (-1) 1) store3 s in
  collected_unsupervised r.1.1
    ++ SupervisedUnsupervisedBuffer.stable_unsupervised r.2
    ++ ObservationBuffer.buffer
         (SupervisedUnsupervisedBuffer.unsupervised_buffer r.2)
  = [fresh (dom store3)].
Proof.
  intros s r.
  destruct (calls_conserve_observations
              (Buffer_unsupervised ∅ 0 (-1) 1) store3 s eq_refl) as [Hu _].
  exact Hu.
Defined.

End conservation_binary64.

(** ** Drift on the two-track buffer *)

Lemma py_int_nonpos (q : Q) : (q <= 0)%Q → (py_int q <= 0)%Z.
Proof.
  unfold Qle, py_int. simpl. intros Hq.
  assert (Qnum q <= 0)%Z as Hnum by lia.
  replace (Qnum q) with (- - Qnum q)%Z by lia.
  rewrite Z.quot_opp_l by lia.
  pose proof (Z.quot_pos (- Qnum q) (Z.pos (Qden q))). lia.
Qed.

Lemma keep_remaining_nonpos n (q : list loc) :
  (n <= 0)%Z → SupervisedUnsupervisedBuffer.keep_remaining n q = [].
Proof.
  intros Hn. unfold SupervisedUnsupervisedBuffer.keep_remaining.
  by destruct (Z.ltb_spec 0 n); [lia|].
Qed.

Lemma keep_remaining_suffix n (q : list loc) :
  SupervisedUnsupervisedBuffer.keep_remaining n q `suffix_of` q
  ∧ (length (SupervisedUnsupervisedBuffer.keep_remaining n q)
     <= Z.to_nat n)%nat.
Proof.
  unfold SupervisedUnsupervisedBuffer.keep_remaining.
  destruct (0 <? n)%Z.
  - split; [apply lastn_suffix|]. unfold lastn. rewrite length_drop. lia.
  - split; [apply suffix_nil | simpl; lia].
Qed.

Lemma unsupervised_timestamps_gap `{FloatArith} s :
  sub_respects_order →
  (0 <= SupervisedUnsupervisedBuffer.unsupervised_buffer_timeout s)%Q →
  (0 <= SupervisedUnsupervisedBuffer.supervised_buffer_timeout s)%Q →
  ((SupervisedUnsupervisedBuffer.get_unsupervised_timestamps s).2
   <= (SupervisedUnsupervisedBuffer.get_unsupervised_timestamps s).1)%Q
  ∧ ((SupervisedUnsupervisedBuffer.get_supervised_timestamps s).2
     <= (SupervisedUnsupervisedBuffer.get_supervised_timestamps s).1)%Q.
Proof.
  intros Hsub Hu Hs.
  unfold SupervisedUnsupervisedBuffer.get_unsupervised_timestamps,
    SupervisedUnsupervisedBuffer.get_supervised_timestamps.
  split; case_bool_decide; simpl; by apply Hsub.
Qed.

Lemma su_reset_on_drift_fields `{FloatArith} (id : Z) (d : Q) (h : Heap)
    (s : SupervisedUnsupervisedBuffer) :
  let r := SupervisedUnsupervisedBuffer.reset_on_drift id d h s in
  let kept : Q :=
    if SupervisedUnsupervisedBuffer.keep_active_window_on_reset s
    then inject_Z (Z.of_nat (SupervisedUnsupervisedBuffer.window_size s))
    else 0 in
  let drift (ts : Q * Q) : Q :=
    if Qeq_bool d (-1) then float_sub ts.1 kept else d in
  let tu := SupervisedUnsupervisedBuffer.get_unsupervised_timestamps s in
  let ts := SupervisedUnsupervisedBuffer.get_supervised_timestamps s in
  SupervisedUnsupervisedBuffer.stable_unsupervised r.2
    `suffix_of` SupervisedUnsupervisedBuffer.stable_unsupervised s
  ∧ (length (SupervisedUnsupervisedBuffer.stable_unsupervised r.2)
     <= Z.to_nat (py_int (float_sub tu.2 (drift tu))))%nat
  ∧ SupervisedUnsupervisedBuffer.stable_supervised r.2
      `suffix_of` SupervisedUnsupervisedBuffer.stable_supervised s
  ∧ (length (SupervisedUnsupervisedBuffer.stable_supervised r.2)
     <= Z.to_nat (py_int (float_sub ts.2 (drift ts))))%nat
  ∧ SupervisedUnsupervisedBuffer.unsupervised_active_timestamp r.2
    = SupervisedUnsupervisedBuffer.unsupervised_active_timestamp s
  ∧ SupervisedUnsupervisedBuffer.supervised_active_timestamp r.2
    = SupervisedUnsupervisedBuffer.supervised_active_timestamp s
  ∧ SupervisedUnsupervisedBuffer.release_strategy r.2
    = SupervisedUnsupervisedBuffer.release_strategy s
  ∧ SupervisedUnsupervisedBuffer.unsupervised_buffer_timeout r.2
    = SupervisedUnsupervisedBuffer.unsupervised_buffer_timeout s
  ∧ SupervisedUnsupervisedBuffer.supervised_buffer_timeout r.2
    = SupervisedUnsupervisedBuffer.supervised_buffer_timeout s.
Proof.
  intros r kept drift tu ts. subst r.
  unfold SupervisedUnsupervisedBuffer.reset_on_drift.
  fold kept. fold tu.
  destruct tu as [a1 s1] eqn:Htu.
  change (SupervisedUnsupervisedBuffer.get_supervised_timestamps
            (SupervisedUnsupervisedBuffer.set_unsupervised _ _ _ s))
    with ts.
  destruct ts as [a2 s2] eqn:Hts.
  unfold ObservationBuffer.reset_on_drift. simpl.
  pose proof (keep_remaining_suffix
    (py_int (float_sub s1 (if Qeq_bool d (-1) then float_sub a1 kept else d)))
    (SupervisedUnsupervisedBuffer.stable_unsupervised s)) as [Hu1 Hu2].
  pose proof (keep_remaining_suffix
    (py_int (float_sub s2 (if Qeq_bool d (-1) then float_sub a2 kept else d)))
    (SupervisedUnsupervisedBuffer.stable_supervised s)) as [Hs1 Hs2].
  unfold drift. simpl. repeat split; done.
Qed.

(** [reset_on_drift] of the two-track buffer keeps of each accumulation
    list a suffix of at most [int(stable_timestamp - drift_timestep)]
    entries, the difference being the float one, where the drift
    timestep of a track is [drift_timestep] or, for [-1.0], the track's
    active timestamp less the window size when the active window is
    kept; it moves no clock and changes no setting. *)
Theorem su_reset_on_drift_truncates `{FloatArith} (id : Z) (d : Q) (h : Heap)
    (s : SupervisedUnsupervisedBuffer) :
  let r := SupervisedUnsupervisedBuffer.reset_on_drift id d h s in
  let kept : Q :=
    if SupervisedUnsupervisedBuffer.keep_active_window_on_reset s
    then inject_Z (Z.of_nat (SupervisedUnsupervisedBuffer.window_size s))
    else 0 in
  let drift (ts : Q * Q) : Q :=
    if Qeq_bool d (-1) then float_sub ts.1 kept else d in
  let tu := SupervisedUnsupervisedBuffer.get_unsupervised_timestamps s in
  let ts := SupervisedUnsupervisedBuffer.get_supervised_timestamps s in
  SupervisedUnsupervisedBuffer.stable_unsupervised r.2
    `suffix_of` SupervisedUnsupervisedBuffer.stable_unsupervised s
  ∧ (length (SupervisedUnsupervisedBuffer.stable_unsupervised r.2)
     <= Z.to_nat (py_int (float_sub tu.2 (drift tu))))%nat
  ∧ SupervisedUnsupervisedBuffer.stable_supervised r.2
      `suffix_of` SupervisedUnsupervisedBuffer.stable_supervised s
  ∧ (length (SupervisedUnsupervisedBuffer.stable_supervised r.2)
     <= Z.to_nat (py_int (float_sub ts.2 (drift ts))))%nat
  ∧ SupervisedUnsupervisedBuffer.unsupervised_active_timestamp r.2
    = SupervisedUnsupervisedBuffer.unsupervised_active_timestamp s
  ∧ SupervisedUnsupervisedBuffer.supervised_active_timestamp r.2
    = SupervisedUnsupervisedBuffer.supervised_active_timestamp s
  ∧ SupervisedUnsupervisedBuffer.release_strategy r.2
    = SupervisedUnsupervisedBuffer.release_strategy s
  ∧ SupervisedUnsupervisedBuffer.unsupervised_buffer_timeout r.2
    = SupervisedUnsupervisedBuffer.unsupervised_buffer_timeout s
  ∧ SupervisedUnsupervisedBuffer.supervised_buffer_timeout r.2
    = SupervisedUnsupervisedBuffer.supervised_buffer_timeout s.
Proof. apply su_reset_on_drift_fields. Qed.

Section truncation_binary64.
#[local] Existing Instance binary64_arith.

(** In double precision [3.3 - 0.3] is [3.0], although the two doubles
    differ by less than 3: with the stable timestamp at [3.3], a drift
    at [0.3] keeps three entries of the accumulation list. *)
Example su_reset_on_drift_keeps_rounded :
  let r0 := su_run [Buffer_unsupervised ∅ 0 1 1;
                    Buffer_unsupervised ∅ 0 2 1;
                    Buffer_unsupervised ∅ 0 3 1;
                    Buffer_unsupervised ∅ 0 (double (33 # 10)) 1]
              ∅ (SupervisedUnsupervisedBuffer.init 2 0 0 "independent") in
  let r :=
    SupervisedUnsupervisedBuffer.reset_on_drift 7 (double (3 # 10))
      r0.1.2 r0.2 in
  SupervisedUnsupervisedBuffer.stable_unsupervised r0.2
  = [1; 2; 3; 4]%positive
  ∧ py_int (float_sub (double (33 # 10)) (double (3 # 10))) = 3%Z
  ∧ py_int (double (33 # 10) - double (3 # 10)) = 2%Z
  ∧ SupervisedUnsupervisedBuffer.stable_unsupervised r.2
    = [2; 3; 4]%positive.
Proof. vm_compute. repeat split; reflexivity. Qed.

End truncation_binary64.

Lemma su_reset_on_drift_clears `{FloatArith} (id : Z) (h : Heap)
    (s : SupervisedUnsupervisedBuffer) :
  sub_respects_order →
  SupervisedUnsupervisedBuffer.keep_active_window_on_reset s = false →
  (0 <= SupervisedUnsupervisedBuffer.unsupervised_buffer_timeout s)%Q →
  (0 <= SupervisedUnsupervisedBuffer.supervised_buffer_timeout s)%Q →
  let r := SupervisedUnsupervisedBuffer.reset_on_drift id (-1) h s in
  SupervisedUnsupervisedBuffer.stable_unsupervised r.2 = []
  ∧ SupervisedUnsupervisedBuffer.stable_supervised r.2 = [].
Proof.
  intros Hsub Hkeep Hu Hs.
  destruct (unsupervised_timestamps_gap s Hsub Hu Hs) as [Hgu Hgs].
  destruct (su_reset_on_drift_fields id (-1) h s)
    as (_ & Hlu & _ & Hls & _).
  rewrite Hkeep in Hlu, Hls. simpl in Hlu, Hls.
  assert (∀ ts : Q * Q, (ts.2 <= ts.1)%Q →
            Z.to_nat (py_int (float_sub ts.2 (float_sub ts.1 0))) = 0%nat)
    as Hzero.
  { intros [a b] Hts. simpl in *.
    pose proof (py_int_nonpos (float_sub b (float_sub a 0))) as Hle.
    assert (float_sub b (float_sub a 0) <= 0)%Q as Hgap.
    { apply Hsub. destruct (Hsub a 0%Q) as (_ & _ & Hzero).
      clear -Hts Hzero. lra. }
    specialize (Hle Hgap). lia. }
  rewrite Hzero in Hlu by done. rewrite Hzero in Hls by done.
  split; apply length_zero_iff_nil; lia.
Qed.


Section reset_without_rounding.
#[local] Existing Instance exact_arith.

Lemma exact_sub_respects_order : sub_respects_order.
Proof. intros a b. simpl. repeat split; intros; lra. Qed.

(** The same in arithmetic without rounding, where the order is
    respected. *)
Corollary su_reset_clears_without_rounding (id : Z) (h : Heap)
    (s : SupervisedUnsupervisedBuffer) :
  SupervisedUnsupervisedBuffer.keep_active_window_on_reset s = false →
  (0 <= SupervisedUnsupervisedBuffer.unsupervised_buffer_timeout s)%Q →
  (0 <= SupervisedUnsupervisedBuffer.supervised_buffer_timeout s)%Q →
  let r := SupervisedUnsupervisedBuffer.reset_on_drift id (-1) h s in
  SupervisedUnsupervisedBuffer.stable_unsupervised r.2 = []
  ∧ SupervisedUnsupervisedBuffer.stable_supervised r.2 = [].
Proof. apply su_reset_on_drift_clears, exact_sub_respects_order. Qed.


End reset_without_rounding.

Section reset_at_binary64.
#[local] Existing Instance binary64_arith.

(** In double precision, with clocks and timeouts that are not whole
    numbers: the default reset empties both accumulation lists. *)
Example su_reset_clears_at_binary64 :
  let r0 := su_run [Buffer_unsupervised ∅ 0 (double (11 # 10)) 1;
                    Buffer_supervised ∅ (TInt 1) 0 (double (17 # 10)) 1;
                    Buffer_unsupervised ∅ 0 (double (33 # 10)) 1;
                    Buffer_supervised ∅ (TInt 0) 0 (-1) 1]
              ∅ (SupervisedUnsupervisedBuffer.init 2 (double (6 # 10))
                   (double (1 # 10)) "independent") in
  let r := SupervisedUnsupervisedBuffer.reset_on_drift 3 (-1) r0.1.2 r0.2 in
  SupervisedUnsupervisedBuffer.stable_unsupervised r0.2
  = [1%positive]
  ∧ SupervisedUnsupervisedBuffer.stable_supervised r0.2
    = [2%positive]
  ∧ SupervisedUnsupervisedBuffer.stable_unsupervised r.2 = []
  ∧ SupervisedUnsupervisedBuffer.stable_supervised r.2 = [].
Proof. vm_compute. repeat split; reflexivity. Qed.

End reset_at_binary64.

(** ** Drift on one buffer *)

(** What [reset_on_drift] does to the store and to the deques, for any
    buffer: each deque keeps a suffix of what it held, the window size
    stays, and an observation changes exactly when it is left in
    [buffer] or in [stable_window], and then only in its
    [active_state_id], which becomes the new id. *)
Theorem reset_on_drift_frame (id : Z) (d : Q) (h : Heap)
    (b : ObservationBuffer) (l : loc) :
  let '(h', b') := ObservationBuffer.reset_on_drift id d h b in
  h' !! l
  = (if decide (l ∈ ObservationBuffer.buffer b'
                ∨ l ∈ ObservationBuffer.stable_window b')
     then Observation.set_active_state_id id <$> h !! l
     else h !! l)
  ∧ ObservationBuffer.buffer b' `suffix_of` ObservationBuffer.buffer b
  ∧ ObservationBuffer.active_window b'
      `suffix_of` ObservationBuffer.active_window b
  ∧ ObservationBuffer.stable_window b'
      `suffix_of` ObservationBuffer.stable_window b
  ∧ ObservationBuffer.window_size b' = ObservationBuffer.window_size b.
Proof.
  unfold ObservationBuffer.reset_on_drift. simpl.
  split; [|repeat split; apply pop_while_suffix].
  rewrite !relabel_lookup.
  repeat case_decide; try tauto.
  destruct (h !! l); [|done]. simpl. by rewrite set_active_state_id_idemp.
Qed.

Lemma pop_while_all_below h t q :
  Forall (λ l, (seen_at_of h l <= t)%Q) q → pop_while h t q = [].
Proof.
  intros Hq. rewrite <- (app_nil_r q).
  by rewrite pop_while_app_le.
Qed.

(** The two ends of [reset_on_drift]: a drift no older than anything
    held empties the three deques and leaves the store alone; a drift
    older than everything held removes nothing. *)
Theorem reset_on_drift_extremes (id : Z) (d : Q) (h : Heap)
    (b : ObservationBuffer) :
  let held :=
    ObservationBuffer.buffer b ++ ObservationBuffer.active_window b
      ++ ObservationBuffer.stable_window b in
  (Forall (λ l, (seen_at_of h l <= d)%Q) held →
   ObservationBuffer.reset_on_drift id d h b
   = (h, ObservationBuffer.init (ObservationBuffer.window_size b)))
  ∧ (Forall (λ l, (d < seen_at_of h l)%Q) held →
     (ObservationBuffer.reset_on_drift id d h b).2 = b).
Proof.
  intros held. subst held. split.
  - intros [Hbuf [Hactive Hstable]%Forall_app]%Forall_app.
    unfold ObservationBuffer.reset_on_drift.
    by rewrite !pop_while_all_below.
  - intros [Hbuf [Hactive Hstable]%Forall_app]%Forall_app.
    unfold ObservationBuffer.reset_on_drift.
    rewrite !pop_while_all_above by done. by destruct b.
Qed.

Lemma reset_on_drift_extremes_witness :
  ObservationBuffer.reset_on_drift 7 3 store3 fed3
  = (store3, ObservationBuffer.init 2)
  ∧ (ObservationBuffer.reset_on_drift 7 0 store3 fed3).2 = fed3.
Proof.
  destruct (reset_on_drift_extremes 7 3 store3 fed3) as [Hflush _].
  destruct (reset_on_drift_extremes 7 0 store3 fed3) as [_ Hkeep].
  split.
  - apply Hflush. repeat constructor; vm_compute; discriminate.
  - apply Hkeep. repeat constructor; vm_compute; reflexivity.
Defined.

(** ** Observations in use *)

(** Last write wins: after a sequence of [add_prediction] calls the
    label stored for a state id is that of the last call for this id,
    and an id no call named has the label it had before, if any. *)
Theorem predictions_last_write_wins (o : Observation)
    (calls : list (ClfTarget * Z)) (k : Z) :
  Observation.predictions (add_predictions calls o) !! k
  = match last (filter (λ c, c.2 = k) calls) with
    | Some c => Some c.1
    | None => Observation.predictions o !! k
    end.
Proof.
  induction calls as [|c calls IH] using rev_ind; [done|].
  rewrite add_predictions_snoc, add_prediction_lookup, filter_app.
  rewrite filter_cons, filter_nil.
  destruct (decide (c.2 = k)) as [Hc|Hc].
  - by rewrite last_snoc.
  - by rewrite app_nil_r.
Qed.

(** [add_prediction] and [add_active_state_relevance] touch their own
    attribute only: a sequence of predictions followed by a relevance
    call leaves the features, the label, the timestamp, the state id,
    the weight and [is_stable] of the observation as they were. *)
Theorem observation_methods_frame (o : Observation)
    (calls : list (ClfTarget * Z)) (v : Q) (id : Z) :
  let o' :=
    (Observation.add_active_state_relevance v id (add_predictions calls o)).1 in
  Observation.x o' = Observation.x o
  ∧ Observation.y o' = Observation.y o
  ∧ Observation.seen_at o' = Observation.seen_at o
  ∧ Observation.active_state_id o' = Observation.active_state_id o
  ∧ Observation.sample_weight o' = Observation.sample_weight o
  ∧ Observation.is_stable o' = Observation.is_stable o
  ∧ Observation.predictions o'
    = Observation.predictions (add_predictions calls o).
Proof.
  assert (∀ o1 : Observation,
            let o2 := (Observation.add_active_state_relevance v id o1).1 in
            Observation.x o2 = Observation.x o1
            ∧ Observation.y o2 = Observation.y o1
            ∧ Observation.seen_at o2 = Observation.seen_at o1
            ∧ Observation.active_state_id o2 = Observation.active_state_id o1
            ∧ Observation.sample_weight o2 = Observation.sample_weight o1
            ∧ Observation.is_stable o2 = Observation.is_stable o1
            ∧ Observation.predictions o2 = Observation.predictions o1)
    as Hrel.
  { intros o1. unfold Observation.add_active_state_relevance.
    by case_bool_decide. }
  assert (Observation.x (add_predictions calls o) = Observation.x o
          ∧ Observation.y (add_predictions calls o) = Observation.y o
          ∧ Observation.seen_at (add_predictions calls o)
            = Observation.seen_at o
          ∧ Observation.active_state_id (add_predictions calls o)
            = Observation.active_state_id o
          ∧ Observation.sample_weight (add_predictions calls o)
            = Observation.sample_weight o
          ∧ Observation.is_stable (add_predictions calls o)
            = Observation.is_stable o) as Hpred.
  { induction calls as [|c calls IH] using rev_ind; [done|].
    rewrite add_predictions_snoc. exact IH. }
  intros o'. subst o'.
  destruct (Hrel (add_predictions calls o)) as (-> & -> & -> & -> & -> & -> & ->).
  tauto.
Qed.

(** The relevance guard follows a drift: once [reset_on_drift] has
    relabelled a buffer fed in order, [add_active_state_relevance] on
    an observation left in any of the three deques succeeds with the
    new state id and with no other. *)
Theorem relevance_guard_after_drift (H : list loc) (h : Heap)
    (b : ObservationBuffer) (new_id : Z) (d : Q) (l : loc) (v : Q) (id : Z) :
  fed_in_order H h b →
  let '(h', b') := ObservationBuffer.reset_on_drift new_id d h b in
  l ∈ ObservationBuffer.buffer b' ++ ObservationBuffer.active_window b'
        ++ ObservationBuffer.stable_window b' →
  (Observation.add_active_state_relevance v id (h' !!! l)).2 = Ok tt
  ↔ id = new_id.
Proof.
  intros Hfed.
  pose proof (reset_on_drift_labelled H h b new_id d l Hfed) as Hlabel.
  pose proof (fed_in_order_shape _ _ _ (fed_reset_on_drift H h b new_id d Hfed))
    as Hafter.
  destruct (ObservationBuffer.reset_on_drift new_id d h b) as [h' b'].
  simpl in Hlabel, Hafter. intros Hl.
  assert (Observation.active_state_id (h' !!! l) = new_id) as Hid.
  { apply Hlabel. rewrite !elem_of_app in Hl.
    destruct Hl as [Hl|[Hl|Hl]]; [by left| |by right].
    by eapply fed_shape_windows. }
  split.
  - intros Hok. destruct (decide (id = new_id)) as [|Hne]; [done|].
    destruct (add_relevance_mismatch v id (h' !!! l)) as (_ & msg & Hmsg);
      [by rewrite Hid|]. by rewrite Hmsg in Hok.
  - intros ->. rewrite <- Hid. by rewrite add_relevance_match.
Qed.

Lemma relevance_guard_after_drift_witness :
  fed_in_order [1; 2; 3]%positive store3 fed3
  ∧ let '(h', b') := ObservationBuffer.reset_on_drift 7 1 store3 fed3 in
    (Observation.add_active_state_relevance (1 # 2) 7 (h' !!! 3%positive)).2
    = Ok tt.
Proof.
  split; [exact fed3_in_order|].
  pose proof (relevance_guard_after_drift _ _ _ 7 1 3%positive (1 # 2) 7
                fed3_in_order) as Hguard.
  cbv beta iota zeta delta [ObservationBuffer.reset_on_drift] in Hguard |- *.
  apply Hguard; [|done].
  vm_compute. repeat constructor.
Defined.

(** ** The two tracks *)

(** Whatever the strategy, a call releases on a track only what is old
    enough on that track's threshold: an observation that is in an
    accumulation list or in a collect result after a call was in the
    accumulation list before, or its [seen_at] is at most the stable
    timestamp of its track after the call. *)
Theorem release_within_threshold `{FloatArith} (c : su_call) (h : Heap)
    (s : SupervisedUnsupervisedBuffer) (l : loc) :
  let r := su_exec c h s in
  (l ∈ SupervisedUnsupervisedBuffer.stable_unsupervised r.2
     ++ collected_unsupervised r.1.1 →
   l ∈ SupervisedUnsupervisedBuffer.stable_unsupervised s
   ∨ (seen_at_of r.1.2 l
      <= (SupervisedUnsupervisedBuffer.get_unsupervised_timestamps r.2).2)%Q)
  ∧ (l ∈ SupervisedUnsupervisedBuffer.stable_supervised r.2
       ++ collected_supervised r.1.1 →
     l ∈ SupervisedUnsupervisedBuffer.stable_supervised s
     ∨ (seen_at_of r.1.2 l
        <= (SupervisedUnsupervisedBuffer.get_supervised_timestamps r.2).2)%Q).
Proof.
  assert (∀ (h1 : Heap) t q, l ∈ take_while h1 t q → (seen_at_of h1 l <= t)%Q)
    as Hle.
  { intros h1 t q Hl. pose proof (take_while_le h1 t q) as Hall.
    rewrite Forall_forall in Hall. by apply Hall. }
  destruct c as [x id ct w|x y id ct w| | |id d]; simpl.
  - rewrite buffer_unsupervised_eq. cbv zeta. rewrite release_buffer_eq.
    cbn [fst snd collected_unsupervised collected_supervised].
    rewrite !app_nil_r. split; [|by left].
    intros [Hl|Hl]%elem_of_app; [by left|]. right. by eapply Hle.
  - rewrite buffer_supervised_eq. cbv zeta. rewrite release_buffer_eq.
    cbn [fst snd collected_unsupervised collected_supervised].
    rewrite !app_nil_r. split; [by left|].
    intros [Hl|Hl]%elem_of_app; [by left|]. right. by eapply Hle.
  - unfold SupervisedUnsupervisedBuffer.collect_stable_unsupervised.
    rewrite release_buffer_eq.
    cbn [fst snd collected_unsupervised collected_supervised].
    rewrite !app_nil_r. split; [|by left]. simpl.
    intros [Hl|Hl]%elem_of_app; [by left|]. right. by eapply Hle.
  - unfold SupervisedUnsupervisedBuffer.collect_stable_supervised.
    rewrite release_buffer_eq.
    cbn [fst snd collected_unsupervised collected_supervised].
    rewrite !app_nil_r. split; [by left|]. simpl.
    intros [Hl|Hl]%elem_of_app; [by left|]. right. by eapply Hle.
  - destruct (su_reset_on_drift_fields id d h s)
      as (Hu & _ & Hs & _).
    rewrite !app_nil_r. split; intros Hl; left.
    + by eapply elem_of_suffix.
    + by eapply elem_of_suffix.
Qed.

Section threshold_binary64.
#[local] Existing Instance binary64_arith.

Lemma release_within_threshold_witness :
  let s := SupervisedUnsupervisedBuffer.init 2 0 1 "independent" in
  let r := su_exec (Buffer_unsupervised ∅ 0 (-1) 1) ∅ s in
  1%positive ∈ SupervisedUnsupervisedBuffer.stable_unsupervised r.2
  ∧ (seen_at_of r.1.2 1%positive
     <= (SupervisedUnsupervisedBuffer.get_unsupervised_timestamps r.2).2)%Q.
Proof.
  intros s r.
  assert (1%positive ∈ SupervisedUnsupervisedBuffer.stable_unsupervised r.2)
    as Hl by (vm_compute; repeat constructor).
  split; [exact Hl|].
  destruct (release_within_threshold (Buffer_unsupervised ∅ 0 (-1) 1) ∅ s
              1%positive) as [Hu _].
  destruct Hu as [Hold|Hnew]; [| |exact Hnew].
  - apply elem_of_app. by left.
  - exact (False_ind _ (proj1 (elem_of_nil 1%positive) Hold)).
Defined.

End threshold_binary64.

(** The windows of both tracks stay within [window_size] over every
    sequence of calls on a new two-track buffer. *)
Theorem su_windows_bounded `{FloatArith} (ws : nat) (ut st : Q)
    (strategy : string) (cs : list su_call) (h : Heap) :
  let s := (su_run cs h
              (SupervisedUnsupervisedBuffer.init ws ut st strategy)).2 in
  let ub := SupervisedUnsupervisedBuffer.unsupervised_buffer s in
  let sb := SupervisedUnsupervisedBuffer.supervised_buffer s in
  ObservationBuffer.window_size ub = ws
  ∧ ObservationBuffer.window_size sb = ws
  ∧ (length (ObservationBuffer.active_window ub) <= ws)%nat
  ∧ (length (ObservationBuffer.stable_window ub) <= ws)%nat
  ∧ (length (ObservationBuffer.active_window sb) <= ws)%nat
  ∧ (length (ObservationBuffer.stable_window sb) <= ws)%nat.
Proof.
  assert (∀ c h1 s1,
    bounded_windows (SupervisedUnsupervisedBuffer.unsupervised_buffer s1) →
    bounded_windows (SupervisedUnsupervisedBuffer.supervised_buffer s1) →
    let s2 := (su_exec c h1 s1).2 in
    (bounded_windows (SupervisedUnsupervisedBuffer.unsupervised_buffer s2)
     ∧ ObservationBuffer.window_size
         (SupervisedUnsupervisedBuffer.unsupervised_buffer s2)
       = ObservationBuffer.window_size
           (SupervisedUnsupervisedBuffer.unsupervised_buffer s1))
    ∧ (bounded_windows (SupervisedUnsupervisedBuffer.supervised_buffer s2)
       ∧ ObservationBuffer.window_size
           (SupervisedUnsupervisedBuffer.supervised_buffer s2)
         = ObservationBuffer.window_size
             (SupervisedUnsupervisedBuffer.supervised_buffer s1))) as Hstep.
  { intros c h1 s1 Hu Hs.
    destruct c as [x id ct w|x y id ct w| | |id d]; simpl.
    - rewrite buffer_unsupervised_eq. cbv zeta. cbn [fst snd]. split; [|done].
      apply (release_buffer_bounded _ _ (pushed _ _)), pushed_bounded, Hu.
    - rewrite buffer_supervised_eq. cbv zeta. cbn [fst snd]. split; [done|].
      apply (release_buffer_bounded _ _ (pushed _ _)), pushed_bounded, Hs.
    - unfold SupervisedUnsupervisedBuffer.collect_stable_unsupervised.
      destruct (ObservationBuffer.release_buffer _ h1 _) as [[rel h2] b2] eqn:Hr.
      simpl. split; [|done].
      pose proof (release_buffer_bounded
        (SupervisedUnsupervisedBuffer.get_unsupervised_timestamps s1).2 h1
        _ Hu) as Hb. by rewrite Hr in Hb.
    - unfold SupervisedUnsupervisedBuffer.collect_stable_supervised.
      destruct (ObservationBuffer.release_buffer _ h1 _) as [[rel h2] b2] eqn:Hr.
      simpl. split; [done|].
      pose proof (release_buffer_bounded
        (SupervisedUnsupervisedBuffer.get_supervised_timestamps s1).2 h1
        _ Hs) as Hb. by rewrite Hr in Hb.
    - unfold SupervisedUnsupervisedBuffer.reset_on_drift.
      destruct (SupervisedUnsupervisedBuffer.get_unsupervised_timestamps s1)
        as [a1 t1].
      destruct (SupervisedUnsupervisedBuffer.get_supervised_timestamps _)
        as [a2 t2].
      unfold ObservationBuffer.reset_on_drift. simpl.
      destruct Hu as [Hua Hus], Hs as [Hsa Hss].
      repeat split; simpl; try done;
        (etrans; [apply pop_while_length|done]). }
  induction cs as [|c cs IH] using rev_ind.
  - simpl. repeat split; lia.
  - rewrite su_run_snoc. cbv zeta in *. cbn [fst snd] in *.
    destruct IH as (Hwu & Hws & Hua & Hus & Hsa & Hss).
    destruct (Hstep c
      (su_run cs h (SupervisedUnsupervisedBuffer.init ws ut st strategy)).1.2
      (su_run cs h (SupervisedUnsupervisedBuffer.init ws ut st strategy)).2)
      as [[[Hua' Hus'] Hwu'] [[Hsa' Hss'] Hws']].
    { split; by rewrite Hwu. }
    { split; by rewrite Hws. }
    rewrite Hwu', Hwu in Hua', Hus'. rewrite Hws', Hws in Hsa', Hss'.
    rewrite Hwu', Hws'. done.
Qed.

(** ** Drift after a run in time *)

Lemma track_in_order_store h h' b clock :
  track_in_order h b clock →
  (∀ l, l ∈ dom h → l ∈ dom h' ∧ seen_at_of h' l = seen_at_of h l) →
  track_in_order h' b clock.
Proof.
  intros (H & Hfed & Hle) Hstore.
  pose proof (fed_in_order_shape _ _ _ Hfed) as (_ & _ & _ & _ & _ & _ & Hdom).
  rewrite Forall_forall in Hdom.
  exists H. split.
  - eapply fed_store; [exact Hfed|]. intros l Hl. by apply Hstore, Hdom.
  - apply Forall_forall. intros l Hl. rewrite Forall_forall in Hle.
    rewrite (proj2 (Hstore l (Hdom l Hl))). by apply Hle.
Qed.

Lemma track_in_order_buffer_data h b clock x y ct st id w :
  track_in_order h b clock → (clock <= ct)%Q →
  track_in_order (ObservationBuffer.buffer_data x y ct st id w h b).1.2
    (ObservationBuffer.buffer_data x y ct st id w h b).2 ct.
Proof.
  intros (H & Hfed & Hle) Hct.
  pose proof (fed_in_order_shape _ _ _ Hfed) as (_ & _ & _ & _ & _ & _ & Hdom).
  rewrite Forall_forall in Hdom, Hle.
  exists (H ++ [fresh (dom h)]). split.
  - apply fed_buffer_data; [done|]. apply Forall_forall.
    intros l Hl. specialize (Hle l Hl). lra.
  - rewrite buffer_data_heap. apply Forall_app. split.
    + apply Forall_forall. intros l Hl.
      destruct (keeps_observations_seen_at h _ l
                  (keeps_observations_alloc h (Observation.init x y ct id w))
                  (Hdom l Hl)) as [_ ->].
      specialize (Hle l Hl). lra.
    + constructor; [|constructor]. unfold seen_at_of.
      rewrite lookup_total_insert_eq. simpl. lra.
Qed.

Lemma track_in_order_release h b clock t :
  track_in_order h b clock →
  track_in_order h (ObservationBuffer.release_buffer t h b).2 clock.
Proof.
  intros (H & Hfed & Hle). exists H. split; [|done].
  by apply fed_release_buffer.
Qed.

Lemma track_in_order_reset h b clock id d :
  track_in_order h b clock →
  track_in_order (ObservationBuffer.reset_on_drift id d h b).1
    (ObservationBuffer.reset_on_drift id d h b).2 clock.
Proof.
  intros (H & Hfed & Hle). exists H. split; [by apply fed_reset_on_drift|].
  eapply Forall_impl; [exact Hle|]. simpl. intros l Hl.
  unfold ObservationBuffer.reset_on_drift. simpl.
  by rewrite 2!relabel_seen_at.
Qed.

Lemma track_in_order_clock h b clock clock' :
  track_in_order h b clock → (clock <= clock')%Q →
  track_in_order h b clock'.
Proof.
  intros (H & Hfed & Hle) Hclock. exists H. split; [done|].
  eapply Forall_impl; [exact Hle|]. simpl. intros l Hl. lra.
Qed.

Lemma ob_reset_on_drift_seen_at id d h b l :
  l ∈ dom h →
  l ∈ dom (ObservationBuffer.reset_on_drift id d h b).1
  ∧ seen_at_of (ObservationBuffer.reset_on_drift id d h b).1 l = seen_at_of h l.
Proof.
  intros Hl. unfold ObservationBuffer.reset_on_drift. simpl.
  split; [by do 2 apply relabel_dom | by rewrite 2!relabel_seen_at].
Qed.

Lemma su_reset_on_drift_eq `{FloatArith} id d h s :
  let du :=
    drift_of d s (SupervisedUnsupervisedBuffer.get_unsupervised_timestamps s) in
  let ds :=
    drift_of d s (SupervisedUnsupervisedBuffer.get_supervised_timestamps s) in
  let r1 :=
    ObservationBuffer.reset_on_drift id du h
      (SupervisedUnsupervisedBuffer.unsupervised_buffer s) in
  let r2 :=
    ObservationBuffer.reset_on_drift id ds r1.1
      (SupervisedUnsupervisedBuffer.supervised_buffer s) in
  let r := SupervisedUnsupervisedBuffer.reset_on_drift id d h s in
  r.1 = r2.1
  ∧ SupervisedUnsupervisedBuffer.unsupervised_buffer r.2 = r1.2
  ∧ SupervisedUnsupervisedBuffer.supervised_buffer r.2 = r2.2.
Proof.
  unfold SupervisedUnsupervisedBuffer.reset_on_drift, drift_of.
  destruct (SupervisedUnsupervisedBuffer.get_unsupervised_timestamps s)
    as [a1 t1] eqn:Hu.
  change (SupervisedUnsupervisedBuffer.get_supervised_timestamps
            (SupervisedUnsupervisedBuffer.set_unsupervised _ _ _ s))
    with (SupervisedUnsupervisedBuffer.get_supervised_timestamps s).
  destruct (SupervisedUnsupervisedBuffer.get_supervised_timestamps s)
    as [a2 t2] eqn:Hs.
  done.
Qed.

(** One call in time keeps both tracks in step with their clocks. *)
Lemma su_exec_tracks_in_order `{FloatArith} c h s :
  in_time c s →
  track_in_order h (SupervisedUnsupervisedBuffer.unsupervised_buffer s)
    (SupervisedUnsupervisedBuffer.unsupervised_active_timestamp s) →
  track_in_order h (SupervisedUnsupervisedBuffer.supervised_buffer s)
    (SupervisedUnsupervisedBuffer.supervised_active_timestamp s) →
  let r := su_exec c h s in
  track_in_order r.1.2 (SupervisedUnsupervisedBuffer.unsupervised_buffer r.2)
    (SupervisedUnsupervisedBuffer.unsupervised_active_timestamp r.2)
  ∧ track_in_order r.1.2 (SupervisedUnsupervisedBuffer.supervised_buffer r.2)
      (SupervisedUnsupervisedBuffer.supervised_active_timestamp r.2).
Proof.
  intros Htime Hu Hs.
  destruct c as [x id ct w|x y id ct w| | |id d]; simpl in *.
  - unfold SupervisedUnsupervisedBuffer.buffer_unsupervised.
    match goal with
    | |- context [ObservationBuffer.buffer_data ?a ?b ?c ?d ?e ?f ?g ?i] =>
        pose proof (track_in_order_buffer_data g i _ a b c d e f Hu Htime)
          as Hu';
        pose proof (buffer_data_heap a b c d e f g i) as Hheap;
        destruct (ObservationBuffer.buffer_data a b c d e f g i)
          as [[rel h'] b']
    end.
    simpl in *. split; [done|].
    eapply track_in_order_store; [exact Hs|]. intros l Hl. rewrite Hheap.
    apply keeps_observations_seen_at; [apply keeps_observations_alloc|done].
  - unfold SupervisedUnsupervisedBuffer.buffer_supervised.
    match goal with
    | |- context [ObservationBuffer.buffer_data ?a ?b ?c ?d ?e ?f ?g ?i] =>
        pose proof (track_in_order_buffer_data g i _ a b c d e f Hs Htime)
          as Hs';
        pose proof (buffer_data_heap a b c d e f g i) as Hheap;
        destruct (ObservationBuffer.buffer_data a b c d e f g i)
          as [[rel h'] b']
    end.
    simpl in *. split; [|done].
    eapply track_in_order_store; [exact Hu|]. intros l Hl. rewrite Hheap.
    apply keeps_observations_seen_at; [apply keeps_observations_alloc|done].
  - unfold SupervisedUnsupervisedBuffer.collect_stable_unsupervised.
    match goal with
    | |- context [ObservationBuffer.release_buffer ?t ?g ?i] =>
        pose proof (track_in_order_release g i _ t Hu) as Hu';
        pose proof (release_buffer_heap t g i) as Hheap;
        destruct (ObservationBuffer.release_buffer t g i) as [[rel h'] b']
    end.
    simpl in *. subst h'. by split.
  - unfold SupervisedUnsupervisedBuffer.collect_stable_supervised.
    match goal with
    | |- context [ObservationBuffer.release_buffer ?t ?g ?i] =>
        pose proof (track_in_order_release g i _ t Hs) as Hs';
        pose proof (release_buffer_heap t g i) as Hheap;
        destruct (ObservationBuffer.release_buffer t g i) as [[rel h'] b']
    end.
    simpl in *. subst h'. by split.
  - destruct (su_reset_on_drift_eq id d h s) as (Hheap & Hub & Hsb).
    destruct (su_reset_on_drift_fields id d h s)
      as (_ & _ & _ & _ & Hcu & Hcs & _).
    rewrite Hheap, Hub, Hsb, Hcu, Hcs. split.
    + eapply track_in_order_store; [by apply track_in_order_reset|].
      intros l Hl. by apply ob_reset_on_drift_seen_at.
    + apply track_in_order_reset.
      eapply track_in_order_store; [exact Hs|].
      intros l Hl. by apply ob_reset_on_drift_seen_at.
Qed.

Lemma su_run_tracks_in_order `{FloatArith} ws ut st strategy cs h0 :
  let s0 := SupervisedUnsupervisedBuffer.init ws ut st strategy in
  run_in_time cs h0 s0 →
  let r := su_run cs h0 s0 in
  track_in_order r.1.2 (SupervisedUnsupervisedBuffer.unsupervised_buffer r.2)
    (SupervisedUnsupervisedBuffer.unsupervised_active_timestamp r.2)
  ∧ track_in_order r.1.2 (SupervisedUnsupervisedBuffer.supervised_buffer r.2)
      (SupervisedUnsupervisedBuffer.supervised_active_timestamp r.2).
Proof.
  intros s0. induction cs as [|c cs IH] using rev_ind; intros Htime.
  - simpl. split; exists []; (split; [apply fed_init|constructor]).
  - rewrite su_run_snoc. cbv zeta in *.
    destruct IH as [Hu Hs].
    { intros cs1 c1 cs2 Hcs. apply (Htime cs1 c1 (cs2 ++ [c])).
      rewrite Hcs. by rewrite <- app_assoc. }
    apply su_exec_tracks_in_order; [|done|done].
    apply (Htime cs c []). done.
Qed.

Lemma reset_on_drift_pruned_labelled H h b id d :
  fed_in_order H h b →
  let r := ObservationBuffer.reset_on_drift id d h b in
  Forall (λ l, (d < seen_at_of r.1 l)%Q
               ∧ Observation.active_state_id (r.1 !!! l) = id)
    (ObservationBuffer.buffer r.2 ++ ObservationBuffer.active_window r.2
       ++ ObservationBuffer.stable_window r.2).
Proof.
  intros Hfed.
  destruct (reset_on_drift_above H h b id d Hfed) as (Hbuf & Hactive & Hstable).
  pose proof (λ l, reset_on_drift_labelled H h b id d l Hfed) as Hlabel.
  pose proof (fed_in_order_shape _ _ _ (fed_reset_on_drift H h b id d Hfed))
    as Hafter.
  cbv zeta in *. rewrite Forall_forall in Hbuf, Hactive, Hstable.
  apply Forall_forall. intros l Hl. rewrite !elem_of_app in Hl. split.
  - destruct Hl as [Hl|[Hl|Hl]]; auto.
  - apply Hlabel. destruct Hl as [Hl|[Hl|Hl]]; [by left| |by right].
    by eapply fed_shape_windows.
Qed.

(** Drift after a run in time.  When no buffering call of a sequence
    moved its clock back, the buffers of both tracks were fed in order,
    so [reset_on_drift] of the two-track buffer leaves in the buffer
    and the two windows of each track only observations newer than the
    drift timestep of that track, all of them with the new state id. *)
Theorem su_reset_on_drift_prunes_and_relabels `{FloatArith} (ws : nat)
    (ut st : Q) (strategy : string) (cs : list su_call) (h0 : Heap) (id : Z)
    (d : Q) :
  let s0 := SupervisedUnsupervisedBuffer.init ws ut st strategy in
  run_in_time cs h0 s0 →
  let r0 := su_run cs h0 s0 in
  let r := SupervisedUnsupervisedBuffer.reset_on_drift id d r0.1.2 r0.2 in
  let du :=
    drift_of d r0.2
      (SupervisedUnsupervisedBuffer.get_unsupervised_timestamps r0.2) in
  let ds :=
    drift_of d r0.2
      (SupervisedUnsupervisedBuffer.get_supervised_timestamps r0.2) in
  let ub := SupervisedUnsupervisedBuffer.unsupervised_buffer r.2 in
  let sb := SupervisedUnsupervisedBuffer.supervised_buffer r.2 in
  Forall (λ l, (du < seen_at_of r.1 l)%Q
               ∧ Observation.active_state_id (r.1 !!! l) = id)
    (ObservationBuffer.buffer ub ++ ObservationBuffer.active_window ub
       ++ ObservationBuffer.stable_window ub)
  ∧ Forall (λ l, (ds < seen_at_of r.1 l)%Q
                 ∧ Observation.active_state_id (r.1 !!! l) = id)
      (ObservationBuffer.buffer sb ++ ObservationBuffer.active_window sb
         ++ ObservationBuffer.stable_window sb).
Proof.
  intros s0 Htime r0 r du ds ub sb.
  destruct (su_run_tracks_in_order ws ut st strategy cs h0 Htime)
    as [(Hu & Hfedu & _) Hs].
  fold s0 in Hfedu, Hs. fold r0 in Hfedu, Hs.
  destruct (su_reset_on_drift_eq id d r0.1.2 r0.2) as (Hheap & Hub & Hsb).
  fold r in Hheap, Hub, Hsb. fold du in Hheap, Hub. fold ds in Hheap, Hsb.
  subst ub sb. rewrite Hheap, Hub, Hsb. split.
  - pose proof (reset_on_drift_pruned_labelled _ _ _ id du Hfedu) as Hpruned.
    eapply Forall_impl; [exact Hpruned|]. cbv beta. intros l [Hseen Hlabel].
    rewrite (ob_reset_on_drift_heap id ds).
    rewrite 2!relabel_seen_at. split; [done|].
    by do 2 apply relabel_keeps_label.
  - destruct (track_in_order_store _
      (ObservationBuffer.reset_on_drift id du r0.1.2
         (SupervisedUnsupervisedBuffer.unsupervised_buffer r0.2)).1 _ _ Hs)
      as (Hs' & Hfeds & _).
    { intros l Hl. by apply ob_reset_on_drift_seen_at. }
    apply (reset_on_drift_pruned_labelled _ _ _ id ds Hfeds).
Qed.

Section prune_and_relabel_binary64.
#[local] Existing Instance binary64_arith.

Lemma su_reset_on_drift_prunes_and_relabels_witness :
  let s0 := SupervisedUnsupervisedBuffer.init 2 1 1 "independent" in
  let cs := [Buffer_unsupervised ∅ 0 (-1) 1; Buffer_unsupervised ∅ 0 4 1;
             Buffer_supervised ∅ (TInt 1) 0 (-1) 1] in
  run_in_time cs ∅ s0
  ∧ let r := SupervisedUnsupervisedBuffer.reset_on_drift 7 2
               (su_run cs ∅ s0).1.2 (su_run cs ∅ s0).2 in
    Forall (λ l, (2 < seen_at_of r.1 l)%Q
                 ∧ Observation.active_state_id (r.1 !!! l) = 7%Z)
      (ObservationBuffer.active_window
         (SupervisedUnsupervisedBuffer.unsupervised_buffer r.2)).
Proof.
  intros s0 cs.
  assert (run_in_time cs ∅ s0) as Htime.
  { intros cs1 c cs2 Hcs.
    destruct cs1 as [|c1 [|c2 [|c3 [|c4 cs1]]]]; simplify_eq/=;
      vm_compute; discriminate. }
  split; [exact Htime|].
  destruct (su_reset_on_drift_prunes_and_relabels 2 1 1 "independent" cs ∅ 7 2
              Htime) as [Hu _].
  by apply Forall_app in Hu as [_ [Hactive _]%Forall_app].
Defined.

End prune_and_relabel_binary64.
